(** * live-translation-app: chunked capture pipeline and frequency visualizer

    A shallow embedding of
      - [src/services/openai.ts]      (transcribeAudio, correctTranscript, translateText),
      - [src/components/AudioRecorder.tsx], in its two revisions
        (the one without and the one with the API-key check),
      - [src/App.tsx]                 (handleNewTranscript),
      - [src/components/AudioVisualizer.tsx] (draw),
    and the properties of the capture pipeline and of the visualizer.

    The browser and the remote language API are collaborators outside the
    repository: their answers are taken from an environment [Env], which
    may answer every call differently. *)

From Stdlib Require Import String Ascii.
From Stdlib Require Import ZArith NArith Floats Lia.
From stdpp Require Import base gmap list.

Set Warnings "-inexact-float".

Local Open Scope Z_scope.

(* ===================================================================== *)
(** * JavaScript strings and values *)
(* ===================================================================== *)

Module Js.

(** A JavaScript string is a sequence of UTF-16 code units. *)
Definition jsstring := list N.

(** An ASCII literal of the source as a JavaScript string. *)
Definition lit (s : String.string) : jsstring :=
  List.map Ascii.N_of_ascii (String.list_ascii_of_string s).
Arguments lit s%_string.

(** [WhiteSpace] and [LineTerminator] of ECMAScript, the code points that
    [String.prototype.trim] strips (all of them in the basic plane). *)
Definition is_white_space (c : N) : bool :=
  ((c =? 0x0009) || (c =? 0x000B) || (c =? 0x000C) || (c =? 0xFEFF) (* WhiteSpace *)
   || (c =? 0x0020) || (c =? 0x00A0) || (c =? 0x1680)              (* Zs *)
   || ((0x2000 <=? c) && (c <=? 0x200A))
   || (c =? 0x202F) || (c =? 0x205F) || (c =? 0x3000)
   || (c =? 0x000A) || (c =? 0x000D) || (c =? 0x2028) || (c =? 0x2029) (* LineTerminator *)
  )%N.

Fixpoint trimStart (s : jsstring) : jsstring :=
  match s with
  | c :: s' => if is_white_space c then trimStart s' else s
  | [] => []
  end.

Definition trimEnd (s : jsstring) : jsstring := rev (trimStart (rev s)).

(** [s.trim()] *)
Definition trim (s : jsstring) : jsstring := trimEnd (trimStart s).

Fixpoint startsWith (s p : jsstring) : bool :=
  match p, s with
  | [], _ => true
  | _ :: _, [] => false
  | a :: p', b :: s' => (a =? b)%N && startsWith s' p'
  end.

(** [s.includes(p)] *)
Fixpoint includes (s p : jsstring) : bool :=
  startsWith s p ||
  match s with
  | [] => false
  | _ :: s' => includes s' p
  end.

(** The values a remote transcription can come back as: the pipeline only
    tells strings from the rest, and truthy from falsy. *)
Inductive jsval :=
| VUndefined
| VNull
| VString (s : jsstring)
| VObject.

(** [!v] is [negb (truthy v)] *)
Definition truthy (v : jsval) : bool :=
  match v with
  | VUndefined | VNull => false
  | VString s => negb (bool_decide (s = []))
  | VObject => true
  end.

(** [typeof v === 'string'] *)
Definition typeof_string (v : jsval) : bool :=
  match v with VString _ => true | _ => false end.

(** The string a value narrowed to [string] holds. *)
Definition as_string (v : jsval) : jsstring :=
  match v with VString s => s | _ => [] end.

(** A string or null/undefined, as [message.content] or [err.message]. *)
Definition truthy_str (o : option jsstring) : bool :=
  match o with
  | Some s => negb (bool_decide (s = []))
  | None => false
  end.

(** [a || b] where [b] is a string *)
Definition or_else (a : option jsstring) (b : jsstring) : jsstring :=
  match a with
  | Some s => if bool_decide (s = []) then b else s
  | None => b
  end.

(** A thrown value, read through [err.name] and [err.message]. *)
Record JsError := { name : option jsstring; message : option jsstring }.

(** [err.name === 'N'] *)
Definition name_is (err : JsError) (n : jsstring) : bool :=
  bool_decide (name err = Some n).

(** [err.message?.includes(p)], as a condition *)
Definition message_includes (err : JsError) (p : jsstring) : bool :=
  match message err with
  | Some m => includes m p
  | None => false
  end.

Definition TypeError (m : String.string) : JsError :=
  {| name := Some (lit "TypeError"); message := Some (lit m) |}.
Definition InvalidStateError : JsError :=
  {| name := Some (lit "InvalidStateError"); message := None |}.

End Js.
Import Js.

(* ===================================================================== *)
(** * Data model *)
(* ===================================================================== *)

(** [App.tsx]: interface TranscriptItem *)
Record TranscriptItem := {
  id : Z;
  original : jsstring;
  translation : jsstring;
  timestamp : jsstring
}.

(** An audio segment handed over by the recorder; only its size is read. *)
Record Blob := { blob_size : N; blob_tag : nat }.

(** [new File([chunk], "speech.webm", { type: 'audio/webm' })] *)
Record File := { file_parts : list Blob; file_name : jsstring; file_type : jsstring }.

(** ** Host objects

    The objects of the browser live in a store and are held through
    handles, so that a stream held by [streamRef] and the stream a
    recorder was built on are one object. *)

Abbreviation handle := nat (only parsing).

Inductive TrackState := Live | Ended.                 (* MediaStreamTrack.readyState *)
Inductive ContextState := Running | Closed.           (* AudioContext.state *)
Inductive RecordingState := Inactive | Recording | Paused. (* MediaRecorder.state *)

(** The [ondataavailable] closure of one render: it calls the
    [processChunk] of that render, which reads that render's [language]. *)
Record DataHandler := { captured_language : jsstring }.

Record MediaRecorder := {
  mr_stream : handle;
  mr_state : RecordingState;
  mr_timeslice : option Z;
  mr_ondataavailable : option DataHandler
}.

Record AnalyserNode := {
  an_context : handle;
  fftSize : Z;
  an_source : option handle
}.

(** [analyser.frequencyBinCount]: half the FFT size. *)
Definition frequencyBinCount (a : AnalyserNode) : Z := fftSize a / 2.

Record Host := {
  next_handle : handle;
  streams : gmap handle (list TrackState);
  contexts : gmap handle ContextState;
  recorders : gmap handle MediaRecorder
}.

(** ** Component state *)

(** [App.tsx]: the state of [App], and the timers it has set. *)
Record AppState := {
  language : jsstring;
  transcripts : list TranscriptItem;
  analyser : option AnalyserNode;
  app_isRecording : bool;
  latestCaption : jsstring;
  timers : list (Z * jsstring)
}.

(** [AudioRecorder.tsx]: the state and the refs of [AudioRecorder].
    [processingStatus] and [apiKeyMissing] exist in the revision with the
    API-key check only; the other revision never touches them. *)
Record RecorderState := {
  isRecording : bool;
  isPaused : bool;
  error : option jsstring;
  processingStatus : option jsstring;
  apiKeyMissing : bool;
  mediaRecorderRef : option handle;
  chunksRef : list Blob;
  streamRef : option handle;
  audioContextRef : option handle
}.

(** ** Calls that leave the page, and the console *)

Inductive Role := System | User.
Record Message := { role : Role; content : jsstring }.

Record TranscriptionRequest := {
  tr_file : File;
  tr_model : jsstring;
  tr_language : jsstring;
  tr_response_format : jsstring;
  tr_prompt : jsstring
}.

Record ChatRequest := {
  ch_model : jsstring;
  ch_messages : list Message;
  ch_store : option bool
}.

Inductive ConsoleLevel := Log | Warn | Error.

(** [completion.choices[i].message.content] is a string or null. *)
Record Choice := { message_content : option jsstring }.
Record Completion := { choices : list Choice }.

Inductive Outcome (A : Type) :=
| Returns (a : A)
| Raises (e : JsError).
Arguments Returns {A} a.
Arguments Raises {A} e.

(** The calls that leave the page, each with what it was answered, and
    the lines written to the console. *)
Inductive Event :=
| GetUserMedia (answer : Outcome (list TrackState))
    (* navigator.mediaDevices.getUserMedia({ audio: true }) *)
| TranscriptionsCreate (req : TranscriptionRequest) (answer : Outcome jsval)
    (* client.audio.transcriptions.create(req) *)
| ChatCompletionsCreate (req : ChatRequest) (answer : Outcome Completion)
    (* client.chat.completions.create(req) *)
| Console (level : ConsoleLevel) (text : jsstring).

Record World := {
  app : AppState;
  recorder : RecorderState;
  host : Host;
  trace : list Event;        (* oldest first *)
  clock_reads : nat
}.

(** What the collaborators answer. The first argument of an answer is the
    number of events before the call, so two calls with equal arguments
    need not be answered alike. *)
Record Env := {
  getUserMedia : nat -> Outcome (list TrackState);
  transcriptions_create : nat -> TranscriptionRequest -> Outcome jsval;
  chat_completions_create : nat -> ChatRequest -> Outcome Completion;
  Date_now : nat -> Z;                    (* the n-th reading of the clock, in ms *)
  toLocaleTimeString : Z -> jsstring;
  isApiKeyConfigured : bool               (* services/openai, not in the sources *)
}.

(** ** Field updates *)

Definition with_app (f : AppState -> AppState) (w : World) : World :=
  {| app := f (app w); recorder := recorder w; host := host w;
     trace := trace w; clock_reads := clock_reads w |}.
Definition with_recorder (f : RecorderState -> RecorderState) (w : World) : World :=
  {| app := app w; recorder := f (recorder w); host := host w;
     trace := trace w; clock_reads := clock_reads w |}.
Definition with_host (f : Host -> Host) (w : World) : World :=
  {| app := app w; recorder := recorder w; host := f (host w);
     trace := trace w; clock_reads := clock_reads w |}.
Definition emit (e : Event) (w : World) : World :=
  {| app := app w; recorder := recorder w; host := host w;
     trace := trace w ++ [e]; clock_reads := clock_reads w |}.
Definition read_clock (w : World) : World :=
  {| app := app w; recorder := recorder w; host := host w;
     trace := trace w; clock_reads := S (clock_reads w) |}.

Definition app_transcripts (f : list TranscriptItem -> list TranscriptItem) (a : AppState) :=
  {| language := language a; transcripts := f (transcripts a); analyser := analyser a;
     app_isRecording := app_isRecording a; latestCaption := latestCaption a;
     timers := timers a |}.
Definition app_analyser (v : option AnalyserNode) (a : AppState) :=
  {| language := language a; transcripts := transcripts a; analyser := v;
     app_isRecording := app_isRecording a; latestCaption := latestCaption a;
     timers := timers a |}.
Definition app_recording (v : bool) (a : AppState) :=
  {| language := language a; transcripts := transcripts a; analyser := analyser a;
     app_isRecording := v; latestCaption := latestCaption a; timers := timers a |}.
Definition app_caption (f : jsstring -> jsstring) (a : AppState) :=
  {| language := language a; transcripts := transcripts a; analyser := analyser a;
     app_isRecording := app_isRecording a; latestCaption := f (latestCaption a);
     timers := timers a |}.
Definition app_timers (f : list (Z * jsstring) -> list (Z * jsstring)) (a : AppState) :=
  {| language := language a; transcripts := transcripts a; analyser := analyser a;
     app_isRecording := app_isRecording a; latestCaption := latestCaption a;
     timers := f (timers a) |}.
Definition app_language (v : jsstring) (a : AppState) :=
  {| language := v; transcripts := transcripts a; analyser := analyser a;
     app_isRecording := app_isRecording a; latestCaption := latestCaption a;
     timers := timers a |}.

Definition rec_isRecording (v : bool) (r : RecorderState) :=
  {| isRecording := v; isPaused := isPaused r; error := error r;
     processingStatus := processingStatus r; apiKeyMissing := apiKeyMissing r;
     mediaRecorderRef := mediaRecorderRef r; chunksRef := chunksRef r;
     streamRef := streamRef r; audioContextRef := audioContextRef r |}.
Definition rec_isPaused (v : bool) (r : RecorderState) :=
  {| isRecording := isRecording r; isPaused := v; error := error r;
     processingStatus := processingStatus r; apiKeyMissing := apiKeyMissing r;
     mediaRecorderRef := mediaRecorderRef r; chunksRef := chunksRef r;
     streamRef := streamRef r; audioContextRef := audioContextRef r |}.
Definition rec_error (v : option jsstring) (r : RecorderState) :=
  {| isRecording := isRecording r; isPaused := isPaused r; error := v;
     processingStatus := processingStatus r; apiKeyMissing := apiKeyMissing r;
     mediaRecorderRef := mediaRecorderRef r; chunksRef := chunksRef r;
     streamRef := streamRef r; audioContextRef := audioContextRef r |}.
Definition rec_processingStatus (v : option jsstring) (r : RecorderState) :=
  {| isRecording := isRecording r; isPaused := isPaused r; error := error r;
     processingStatus := v; apiKeyMissing := apiKeyMissing r;
     mediaRecorderRef := mediaRecorderRef r; chunksRef := chunksRef r;
     streamRef := streamRef r; audioContextRef := audioContextRef r |}.
Definition rec_apiKeyMissing (v : bool) (r : RecorderState) :=
  {| isRecording := isRecording r; isPaused := isPaused r; error := error r;
     processingStatus := processingStatus r; apiKeyMissing := v;
     mediaRecorderRef := mediaRecorderRef r; chunksRef := chunksRef r;
     streamRef := streamRef r; audioContextRef := audioContextRef r |}.
Definition rec_mediaRecorderRef (v : option handle) (r : RecorderState) :=
  {| isRecording := isRecording r; isPaused := isPaused r; error := error r;
     processingStatus := processingStatus r; apiKeyMissing := apiKeyMissing r;
     mediaRecorderRef := v; chunksRef := chunksRef r;
     streamRef := streamRef r; audioContextRef := audioContextRef r |}.
Definition rec_chunksRef (f : list Blob -> list Blob) (r : RecorderState) :=
  {| isRecording := isRecording r; isPaused := isPaused r; error := error r;
     processingStatus := processingStatus r; apiKeyMissing := apiKeyMissing r;
     mediaRecorderRef := mediaRecorderRef r; chunksRef := f (chunksRef r);
     streamRef := streamRef r; audioContextRef := audioContextRef r |}.
Definition rec_streamRef (v : option handle) (r : RecorderState) :=
  {| isRecording := isRecording r; isPaused := isPaused r; error := error r;
     processingStatus := processingStatus r; apiKeyMissing := apiKeyMissing r;
     mediaRecorderRef := mediaRecorderRef r; chunksRef := chunksRef r;
     streamRef := v; audioContextRef := audioContextRef r |}.
Definition rec_audioContextRef (v : option handle) (r : RecorderState) :=
  {| isRecording := isRecording r; isPaused := isPaused r; error := error r;
     processingStatus := processingStatus r; apiKeyMissing := apiKeyMissing r;
     mediaRecorderRef := mediaRecorderRef r; chunksRef := chunksRef r;
     streamRef := streamRef r; audioContextRef := v |}.

Definition host_alloc (h : Host) : Host :=
  {| next_handle := S (next_handle h); streams := streams h;
     contexts := contexts h; recorders := recorders h |}.
Definition host_streams (f : gmap handle (list TrackState) -> gmap handle (list TrackState))
    (h : Host) : Host :=
  {| next_handle := next_handle h; streams := f (streams h);
     contexts := contexts h; recorders := recorders h |}.
Definition host_contexts (f : gmap handle ContextState -> gmap handle ContextState)
    (h : Host) : Host :=
  {| next_handle := next_handle h; streams := streams h;
     contexts := f (contexts h); recorders := recorders h |}.
Definition host_recorders (f : gmap handle MediaRecorder -> gmap handle MediaRecorder)
    (h : Host) : Host :=
  {| next_handle := next_handle h; streams := streams h;
     contexts := contexts h; recorders := f (recorders h) |}.

Definition mr_with_state (s : RecordingState) (r : MediaRecorder) : MediaRecorder :=
  {| mr_stream := mr_stream r; mr_state := s; mr_timeslice := mr_timeslice r;
     mr_ondataavailable := mr_ondataavailable r |}.
Definition mr_with_timeslice (t : Z) (r : MediaRecorder) : MediaRecorder :=
  {| mr_stream := mr_stream r; mr_state := mr_state r; mr_timeslice := Some t;
     mr_ondataavailable := mr_ondataavailable r |}.
Definition mr_with_handler (d : DataHandler) (r : MediaRecorder) : MediaRecorder :=
  {| mr_stream := mr_stream r; mr_state := mr_state r; mr_timeslice := mr_timeslice r;
     mr_ondataavailable := Some d |}.

(* ===================================================================== *)
(** * Effects: state, and exceptions that keep the state *)
(* ===================================================================== *)

Definition M (A : Type) : Type := World -> Outcome A * World.

Definition ret {A} (a : A) : M A := fun w => (Returns a, w).
Definition throw {A} (e : JsError) : M A := fun w => (Raises e, w).

Definition bind {A B} (c : M A) (k : A -> M B) : M B :=
  fun w =>
    match c w with
    | (Returns a, w') => k a w'
    | (Raises e, w') => (Raises e, w')
    end.

(** [try { body } catch (e) { handler }] *)
Definition try_catch {A} (body : M A) (handler : JsError -> M A) : M A :=
  fun w =>
    match body w with
    | (Returns a, w') => (Returns a, w')
    | (Raises e, w') => handler e w'
    end.

Definition get {A} (f : World -> A) : M A := fun w => (Returns (f w), w).
Definition modify (f : World -> World) : M unit := fun w => (Returns tt, f w).

Declare Scope js_scope.
Delimit Scope js_scope with js.
Notation "x <- c ;; k" := (bind c (fun x => k))
  (at level 100, c at next level, right associativity) : js_scope.
Notation "c ;; k" := (bind c (fun _ => k))
  (at level 100, right associativity) : js_scope.
Local Open Scope js_scope.

(** The world a computation leaves, and what it returned. *)
Definition exec {A} (c : M A) (w : World) : World := snd (c w).
Definition result {A} (c : M A) (w : World) : Outcome A := fst (c w).

(** The events a computation adds to the trace of [w]. *)
Definition events_of {A} (c : M A) (w : World) : list Event :=
  drop (length (trace w)) (trace (exec c w)).

(* ===================================================================== *)
(** * The program *)
(* ===================================================================== *)

Section Program.

Variable env : Env.

(** ** The host's operations *)

Definition console (level : ConsoleLevel) (text : String.string) : M unit :=
  modify (emit (Console level (lit text))).

(** [Date.now()], and the time [new Date()] holds *)
Definition Date_now_read : M Z :=
  fun w => (Returns (Date_now env (clock_reads w)), read_clock w).

(** [await navigator.mediaDevices.getUserMedia({ audio: true })] *)
Definition navigator_mediaDevices_getUserMedia : M handle :=
  fun w =>
    let answer := getUserMedia env (length (trace w)) in
    let w1 := emit (GetUserMedia answer) w in
    match answer with
    | Returns tracks =>
        let h := next_handle (host w1) in
        (Returns h, with_host (fun H => host_alloc (host_streams <[h := tracks]> H)) w1)
    | Raises e => (Raises e, w1)
    end.

(** [new AudioContext()]; the constructors of the host are taken not to
    raise. *)
Definition new_AudioContext : M handle :=
  fun w =>
    let h := next_handle (host w) in
    (Returns h, with_host (fun H => host_alloc (host_contexts <[h := Running]> H)) w).

(** [audioContext.createAnalyser()]: a node with the default FFT size *)
Definition createAnalyser (audioContext : handle) : AnalyserNode :=
  {| an_context := audioContext; fftSize := 2048; an_source := None |}.

(** [analyser.fftSize = n] *)
Definition set_fftSize (n : Z) (a : AnalyserNode) : AnalyserNode :=
  {| an_context := an_context a; fftSize := n; an_source := an_source a |}.

(** [audioContext.createMediaStreamSource(stream).connect(analyser)] *)
Definition connect_source (stream : handle) (a : AnalyserNode) : AnalyserNode :=
  {| an_context := an_context a; fftSize := fftSize a; an_source := Some stream |}.

(** [new MediaRecorder(stream)] *)
Definition new_MediaRecorder (stream : handle) : M handle :=
  fun w =>
    let h := next_handle (host w) in
    let r := {| mr_stream := stream; mr_state := Inactive; mr_timeslice := None;
                mr_ondataavailable := None |} in
    (Returns h, with_host (fun H => host_alloc (host_recorders <[h := r]> H)) w).

Definition update_recorder (r : handle) (f : MediaRecorder -> MediaRecorder) : M unit :=
  modify (with_host (host_recorders (alter f r))).

Definition recorder_state (r : handle) (w : World) : RecordingState :=
  match recorders (host w) !! r with
  | Some mr => mr_state mr
  | None => Inactive
  end.

(** [mediaRecorder.start(timeslice)] *)
Definition MediaRecorder_start (r : handle) (timeslice : Z) : M unit :=
  update_recorder r (fun mr => mr_with_state Recording (mr_with_timeslice timeslice mr)).

(** [mediaRecorder.stop()] *)
Definition MediaRecorder_stop (r : handle) : M unit :=
  update_recorder r (mr_with_state Inactive).

(** [mediaRecorder.pause()]: an inactive recorder raises *)
Definition MediaRecorder_pause (r : handle) : M unit :=
  s <- get (recorder_state r) ;;
  match s with
  | Inactive => throw InvalidStateError
  | _ => update_recorder r (mr_with_state Paused)
  end.

(** [mediaRecorder.resume()]: an inactive recorder raises *)
Definition MediaRecorder_resume (r : handle) : M unit :=
  s <- get (recorder_state r) ;;
  match s with
  | Inactive => throw InvalidStateError
  | _ => update_recorder r (mr_with_state Recording)
  end.

(** [stream.getTracks().forEach(track => track.stop())] *)
Definition stop_all_tracks (stream : handle) : M unit :=
  modify (with_host (host_streams (alter (List.map (fun _ => Ended)) stream))).

(** [audioContext.close()] *)
Definition AudioContext_close (c : handle) : M unit :=
  modify (with_host (host_contexts (alter (fun _ => Closed) c))).

(** ** services/openai.ts *)

Definition SYSTEM_PROMPT_CORRECTION : jsstring := lit "
You are a helpful assistant for the company ZyntriQix. Your task is 
to correct any spelling discrepancies in the transcribed text. Make 
sure that the names of the following products are spelled correctly: 
ZyntriQix, Digique Plus, CynapseFive, VortiQore V8, EchoNix Array, 
OrbitalLink Seven, DigiFractal Matrix, PULSE, RAPT, B.R.I.C.K., 
Q.U.A.R.T.Z., F.L.I.N.T. Only add necessary punctuation such as 
periods, commas, and capitalization, and use only the context provided.
".

(** [client.audio.transcriptions.create(req)] *)
Definition client_audio_transcriptions_create (req : TranscriptionRequest) : M jsval :=
  fun w =>
    let answer := transcriptions_create env (length (trace w)) req in
    (answer, emit (TranscriptionsCreate req answer) w).

(** [client.chat.completions.create(req)] *)
Definition client_chat_completions_create (req : ChatRequest) : M Completion :=
  fun w =>
    let answer := chat_completions_create env (length (trace w)) req in
    (answer, emit (ChatCompletionsCreate req answer) w).

(** [completion.choices[0].message.content]: reading [message] of a
    missing first choice raises a TypeError. *)
Definition first_content (completion : Completion) : M (option jsstring) :=
  match choices completion with
  | c :: _ => ret (message_content c)
  | [] => throw (TypeError "Cannot read properties of undefined (reading 'message')")
  end.

(** The argument of [client.audio.transcriptions.create] in [transcribeAudio] *)
Definition transcription_request (audioFile : File) (language : jsstring) :=
  {| tr_file := audioFile;
     tr_model := lit "whisper-1";
     tr_language := language;
     tr_response_format := lit "text";
     tr_prompt := lit "The following conversation is a lecture about the recent developments around OpenAI, GPT-4.5 and the future of AI." |}.

Definition transcribeAudio (audioFile : File) (language : jsstring) : M jsval :=
  try_catch
    (transcription <- client_audio_transcriptions_create
       (transcription_request audioFile language) ;;
     ret transcription)
    (fun error =>
       console Error "Transcription error:" ;;
       throw error).

(** The argument of [client.chat.completions.create] in [correctTranscript] *)
Definition correction_request (transcript : jsstring) :=
  {| ch_model := lit "gpt-4o-mini";
     ch_messages :=
       [ {| role := System; content := SYSTEM_PROMPT_CORRECTION |};
         {| role := User; content := transcript |} ];
     ch_store := Some true |}.

Definition correctTranscript (transcript : jsstring) : M jsstring :=
  try_catch
    (completion <- client_chat_completions_create (correction_request transcript) ;;
     content <- first_content completion ;;
     ret (or_else content transcript))
    (fun error =>
       console Error "Correction error:" ;;
       ret transcript).

(** The name of the target language in the instruction:
    [targetLang === 'en' ? 'English' : targetLang] *)
Definition target_name (targetLang : jsstring) : jsstring :=
  if bool_decide (targetLang = lit "en") then lit "English" else targetLang.

Definition translator_instruction (targetLang : jsstring) : jsstring :=
  lit "You are a professional translator. Translate the user input into "
  ++ target_name targetLang ++ lit ". If it is already "
  ++ target_name targetLang ++ lit ", just refine it slightly.".

(** The argument of [client.chat.completions.create] in [translateText] *)
Definition translation_request (text targetLang : jsstring) :=
  {| ch_model := lit "gpt-4o-mini";
     ch_messages :=
       [ {| role := System; content := translator_instruction targetLang |};
         {| role := User; content := text |} ];
     ch_store := None |}.

(** [translateText(text, targetLang = "en")]: a call without the second
    argument passes [None]. *)
Definition translateText (text : jsstring) (targetLang : option jsstring) : M jsstring :=
  let targetLang := default (lit "en") targetLang in
  try_catch
    (completion <- client_chat_completions_create (translation_request text targetLang) ;;
     content <- first_content completion ;;
     ret (or_else content (lit "")))
    (fun error =>
       console Error "Translation error:" ;;
       ret (lit "")).

(** ** App.tsx *)

(** [setTimeout(() => setLatestCaption(prev => prev === translation ? "" : prev), 6000)]:
    the timer is kept until the host fires it. *)
Definition setTimeout_clear_caption (translation : jsstring) (delay : Z) : M unit :=
  modify (with_app (app_timers (fun ts => ts ++ [(delay, translation)]))).

Definition handleNewTranscript (original translation : jsstring) : M unit :=
  now <- Date_now_read ;;
  date <- Date_now_read ;;
  let newItem :=
    {| id := now;
       original := original;
       translation := translation;
       timestamp := toLocaleTimeString env date |} in
  modify (with_app (app_transcripts (fun prev => prev ++ [newItem]))) ;;
  modify (with_app (app_caption (fun _ => translation))) ;;
  setTimeout_clear_caption translation 6000.

(** The callback of a caption timer, when the host fires it. *)
Definition caption_timer_fires (translation : jsstring) : M unit :=
  modify (with_app (app_caption (fun prev =>
    if bool_decide (prev = translation) then lit "" else prev))).

(** The props [App] passes to [AudioRecorder]. *)
Definition onNewTranscript := handleNewTranscript.
Definition onAnalyserReady (a : option AnalyserNode) : M unit :=
  modify (with_app (app_analyser a)).                     (* setAnalyser *)
Definition onRecordingStateChange (b : bool) : M unit :=
  modify (with_app (app_recording b)).                    (* setIsRecording *)

(** ** components/AudioRecorder.tsx *)

Definition setIsRecording (b : bool) : M unit := modify (with_recorder (rec_isRecording b)).
Definition setIsPaused (b : bool) : M unit := modify (with_recorder (rec_isPaused b)).
Definition setError (e : option jsstring) : M unit := modify (with_recorder (rec_error e)).
Definition setProcessingStatus (s : option jsstring) : M unit :=
  modify (with_recorder (rec_processingStatus s)).
Definition setApiKeyMissing (b : bool) : M unit :=
  modify (with_recorder (rec_apiKeyMissing b)).

Definition CHUNK_INTERVAL : Z := 10000.

Definition dismissError : M unit := setError None.

(** [!transcript || typeof transcript !== 'string' || transcript.trim().length === 0] *)
Definition no_transcript (transcript : jsval) : bool :=
  negb (truthy transcript)
  || negb (typeof_string transcript)
  || (length (trim (as_string transcript)) =? 0)%nat.

(** [new File([chunk], "speech.webm", { type: 'audio/webm' })] *)
Definition speech_file (chunk : Blob) : File :=
  {| file_parts := [chunk]; file_name := lit "speech.webm"; file_type := lit "audio/webm" |}.

(** [processChunk] of the revision without the API-key check; [language]
    is the prop of the render whose closure runs. *)
Definition processChunk (language : jsstring) (chunk : Blob) : M unit :=
  let file := speech_file chunk in
  try_catch
    (transcript <- transcribeAudio file language ;;
     if no_transcript transcript then ret tt
     else
       corrected <- correctTranscript (as_string transcript) ;;
       translation <- translateText corrected None ;;
       onNewTranscript corrected translation)
    (fun error =>
       console Error "Processing chunk failed:").

(** [processChunk] of the revision with the API-key check (the console
    lines without their pictographs and arguments). *)
Definition processChunk_keycheck (language : jsstring) (chunk : Blob) : M unit :=
  let file := speech_file chunk in
  console Log "Processing audio chunk:" ;;
  setProcessingStatus (Some (lit "Transcribing...")) ;;
  try_catch
    (console Log "Calling transcribeAudio..." ;;
     transcript <- transcribeAudio file language ;;
     console Log "Transcription result:" ;;
     if no_transcript transcript then
       console Log "Empty transcription, skipping" ;;
       setProcessingStatus None
     else
       setProcessingStatus (Some (lit "Correcting...")) ;;
       console Log "Calling correctTranscript..." ;;
       corrected <- correctTranscript (as_string transcript) ;;
       console Log "Corrected result:" ;;
       setProcessingStatus (Some (lit "Translating...")) ;;
       console Log "Calling translateText..." ;;
       translation <- translateText corrected None ;;
       console Log "Translation result:" ;;
       setProcessingStatus None ;;
       onNewTranscript corrected translation)
    (fun error =>
       console Error "Processing chunk failed:" ;;
       setProcessingStatus None ;;
       if message_includes error (lit "API")
          || message_includes error (lit "401")
          || message_includes error (lit "403")
       then setError (Some (lit "OpenAI API error. Please check your API key configuration."))
       else ret tt).

Inductive Revision :=
| Plain      (* components/AudioRecorder.tsx *)
| KeyCheck.  (* the revision with [isApiKeyConfigured] *)

Definition processChunk_of (rev : Revision) :=
  match rev with
  | Plain => processChunk
  | KeyCheck => processChunk_keycheck
  end.

(** [mediaRecorder.ondataavailable = (event) => { ... }], on [event.data].
    [processChunk] is not awaited, and it catches what its stages raise.
    The pipeline of a chunk is run here from its first call to its last:
    between its awaits it reads nothing that another handler writes (its
    [language] is the one its closure caught, and the log is extended by
    a function of the log at that moment), so what it does is decided by
    the answers it gets. *)
Definition ondataavailable (rev : Revision) (d : DataHandler) (data : Blob) : M unit :=
  if (0 <? blob_size data)%N then
    modify (with_recorder (rec_chunksRef (fun cs => cs ++ [data]))) ;;
    processChunk_of rev (captured_language d) data
  else ret tt.

(** The user-friendly message of the [catch] of [startRecording]. *)
Definition errorMessage (err : JsError) : jsstring :=
  if name_is err (lit "NotFoundError") || message_includes err (lit "not found") then
    lit "No microphone detected. Please connect a microphone and try again."
  else if name_is err (lit "NotAllowedError") || name_is err (lit "PermissionDeniedError") then
    lit "Microphone access denied. Please allow microphone access in your browser settings."
  else if name_is err (lit "NotReadableError") then
    lit "Microphone is in use by another application."
  else if truthy_str (message err) then
    lit "Microphone error: " ++ default [] (message err)
  else
    lit "Unable to access microphone.".

(** The kinds of failure the [catch] of [startRecording] tells apart, by
    the conditions of its [if] chain, and the message of each kind. *)
Inductive FailureKind := DeviceMissing | PermissionDenied | DeviceBusy | OtherFailure.

Definition failure_kind (err : JsError) : FailureKind :=
  if name_is err (lit "NotFoundError") || message_includes err (lit "not found") then
    DeviceMissing
  else if name_is err (lit "NotAllowedError") || name_is err (lit "PermissionDeniedError") then
    PermissionDenied
  else if name_is err (lit "NotReadableError") then
    DeviceBusy
  else OtherFailure.

Definition message_of_kind (k : FailureKind) (err : JsError) : jsstring :=
  match k with
  | DeviceMissing =>
      lit "No microphone detected. Please connect a microphone and try again."
  | PermissionDenied =>
      lit "Microphone access denied. Please allow microphone access in your browser settings."
  | DeviceBusy =>
      lit "Microphone is in use by another application."
  | OtherFailure =>
      if truthy_str (message err) then lit "Microphone error: " ++ default [] (message err)
      else lit "Unable to access microphone."
  end.

(** The [try] block of [startRecording], the same in both revisions. *)
Definition acquire_and_record : M unit :=
  stream <- navigator_mediaDevices_getUserMedia ;;
  modify (with_recorder (rec_streamRef (Some stream))) ;;
  audioContext <- new_AudioContext ;;
  modify (with_recorder (rec_audioContextRef (Some audioContext))) ;;
  let analyser := createAnalyser audioContext in
  let analyser := set_fftSize 256 analyser in
  let analyser := connect_source stream analyser in
  onAnalyserReady (Some analyser) ;;
  mediaRecorder <- new_MediaRecorder stream ;;
  modify (with_recorder (rec_mediaRecorderRef (Some mediaRecorder))) ;;
  modify (with_recorder (rec_chunksRef (fun _ => []))) ;;
  language <- get (fun w => language (app w)) ;;
  update_recorder mediaRecorder (mr_with_handler {| captured_language := language |}) ;;
  MediaRecorder_start mediaRecorder CHUNK_INTERVAL ;;
  setIsRecording true ;;
  onRecordingStateChange true ;;
  setIsPaused false.

(** The [catch] block of [startRecording], the same in both revisions. *)
Definition microphone_failed (err : JsError) : M unit :=
  console Error "Error accessing microphone:" ;;
  setError (Some (errorMessage err)).

Definition startRecording : M unit :=
  setError None ;;
  try_catch acquire_and_record microphone_failed.

Definition startRecording_keycheck : M unit :=
  setError None ;;
  missing <- get (fun w => apiKeyMissing (recorder w)) ;;
  if missing then
    setError (Some (lit "OpenAI API key is not configured. Transcription will not work."))
  else
    try_catch acquire_and_record microphone_failed.

Definition startRecording_of (rev : Revision) :=
  match rev with
  | Plain => startRecording
  | KeyCheck => startRecording_keycheck
  end.

(** The effect run once after the first render. *)
Definition mount_effect (rev : Revision) : M unit :=
  match rev with
  | Plain => ret tt
  | KeyCheck =>
      if negb (isApiKeyConfigured env) then
        setApiKeyMissing true ;;
        console Error "API key check failed - transcription will not work"
      else ret tt
  end.

Definition stopRecording : M unit :=
  mediaRecorder <- get (fun w => mediaRecorderRef (recorder w)) ;;
  recording <- get (fun w => isRecording (recorder w)) ;;
  match mediaRecorder with
  | Some r =>
      if recording then
        MediaRecorder_stop r ;;
        stream <- get (fun w => streamRef (recorder w)) ;;
        match stream with Some s => stop_all_tracks s | None => ret tt end ;;
        audioContext <- get (fun w => audioContextRef (recorder w)) ;;
        match audioContext with Some c => AudioContext_close c | None => ret tt end ;;
        onAnalyserReady None ;;
        setIsRecording false ;;
        onRecordingStateChange false ;;
        setIsPaused false
      else ret tt
  | None => ret tt
  end.

Definition togglePause : M unit :=
  mediaRecorder <- get (fun w => mediaRecorderRef (recorder w)) ;;
  match mediaRecorder with
  | Some r =>
      paused <- get (fun w => isPaused (recorder w)) ;;
      if paused then
        MediaRecorder_resume r ;;
        setIsPaused false
      else
        MediaRecorder_pause r ;;
        setIsPaused true
  | None => ret tt
  end.

(** What is rendered: the error toast [{error && ...}], the warning
    [{apiKeyMissing && !error && ...}] of the revision with the key check,
    and the buttons. *)
Definition shows_error_toast (w : World) : bool := truthy_str (error (recorder w)).
Definition shows_api_key_warning (w : World) : bool :=
  apiKeyMissing (recorder w) && negb (truthy_str (error (recorder w))).
Definition shows_start_button (w : World) : bool := negb (isRecording (recorder w)).
Definition shows_stop_button (w : World) : bool := isRecording (recorder w).

End Program.

(* ===================================================================== *)
(** * Sessions: what the page can be made to do *)
(* ===================================================================== *)

Definition initial_world : World :=
  {| app := {| language := lit "ko"; transcripts := []; analyser := None;
               app_isRecording := false; latestCaption := lit ""; timers := [] |};
     recorder := {| isRecording := false; isPaused := false; error := None;
                    processingStatus := None; apiKeyMissing := false;
                    mediaRecorderRef := None; chunksRef := [];
                    streamRef := None; audioContextRef := None |};
     host := {| next_handle := 0%nat; streams := ∅; contexts := ∅; recorders := ∅ |};
     trace := [];
     clock_reads := 0%nat |}.

(** What happens to the page: clicks on the buttons that are rendered,
    a data event of a recorder that has a handler, a caption timer. *)
Inductive UiEvent :=
| ClickStart
| ClickStop
| ClickPauseResume
| ClickDismiss
| SetLanguage (l : jsstring)
| DataAvailable (r : handle) (data : Blob)
| CaptionTimer (translation : jsstring).

Definition handler_of (r : handle) (w : World) : option DataHandler :=
  mr ← recorders (host w) !! r; mr_ondataavailable mr.

Definition enabled (ev : UiEvent) (w : World) : bool :=
  match ev with
  | ClickStart => shows_start_button w
  | ClickStop | ClickPauseResume => shows_stop_button w
  | ClickDismiss => shows_error_toast w
  | SetLanguage _ => true
  | DataAvailable r _ => bool_decide (is_Some (handler_of r w))
  | CaptionTimer t => bool_decide ((6000, t) ∈ timers (app w))
  end.

Definition handle_event (env : Env) (rev : Revision) (ev : UiEvent) : M unit :=
  match ev with
  | ClickStart => startRecording_of env rev
  | ClickStop => stopRecording
  | ClickPauseResume => togglePause
  | ClickDismiss => dismissError
  | SetLanguage l => modify (with_app (app_language l))
  | DataAvailable r data =>
      d <- get (handler_of r) ;;
      match d with
      | Some d => ondataavailable env rev d data
      | None => ret tt
      end
  | CaptionTimer t => caption_timer_fires t
  end.

(** The worlds a mounted page can be in. An event handler that raises
    leaves the state it reached. *)
Inductive Reachable (env : Env) (rev : Revision) : World -> Prop :=
| reach_mount :
    Reachable env rev (exec (mount_effect env rev) initial_world)
| reach_event w ev :
    Reachable env rev w ->
    enabled ev w = true ->
    Reachable env rev (exec (handle_event env rev ev) w).

(** While the page shows a session as recording, the refs hold the
    recorder, the stream and the audio context of that session, and the
    host still has the three objects. *)
Definition session_held (w : World) : Prop :=
  isRecording (recorder w) = true ->
  exists r s c,
    mediaRecorderRef (recorder w) = Some r
    /\ streamRef (recorder w) = Some s
    /\ audioContextRef (recorder w) = Some c
    /\ is_Some (recorders (host w) !! r)
    /\ is_Some (streams (host w) !! s)
    /\ is_Some (contexts (host w) !! c).

(** The chat calls among some events, in order. *)
Definition chat_calls (evs : list Event) : list (ChatRequest * Outcome Completion) :=
  omap (fun e => match e with
                 | ChatCompletionsCreate req ans => Some (req, ans)
                 | _ => None
                 end) evs.

(** A stage that answers with a completion has failed when the call
    raised or the completion holds no content: no first choice, a null
    content or an empty one. *)
Definition no_content (ans : Outcome Completion) : bool :=
  match ans with
  | Raises _ => true
  | Returns c =>
      match choices c with
      | [] => true
      | ch :: _ => negb (truthy_str (message_content ch))
      end
  end.

(** ** A run of the whole pipeline *)

Module Scenario.

Definition completion_of (s : String.string) : Completion :=
  {| choices := [ {| message_content := Some (lit s) |} ] |}.

(** An environment that answers stage 1, stage 2 and stage 3 as given;
    stage 2 is told from stage 3 by the [store] flag of its request. *)
Definition answering (mic : Outcome (list TrackState)) (stage1 : Outcome jsval)
    (stage2 stage3 : Outcome Completion) (key : bool) : Env :=
  {| getUserMedia := fun _ => mic;
     transcriptions_create := fun _ _ => stage1;
     chat_completions_create := fun _ req =>
       if bool_decide (ch_store req = Some true) then stage2 else stage3;
     Date_now := fun n => 1700000000000 + Z.of_nat n;
     toLocaleTimeString := fun _ => lit "10:00:00 AM";
     isApiKeyConfigured := key |}.

(** Stage 1 hears hello world, stage 2 corrects it, stage 3 translates. *)
Definition env : Env :=
  answering (Returns [Live]) (Returns (VString (lit "hello world")))
    (Returns (completion_of "Hello world."))
    (Returns (completion_of "Bonjour le monde.")) true.

Definition outage : JsError :=
  {| name := Some (lit "APIConnectionError"); message := Some (lit "Connection error.") |}.

Definition chunk : Blob := {| blob_size := 4096; blob_tag := 0 |}.

Definition run (rev : Revision) : World :=
  let w0 := exec (mount_effect env rev) initial_world in
  let w1 := exec (handle_event env rev ClickStart) w0 in
  exec (handle_event env rev (DataAvailable 2%nat chunk)) w1.

End Scenario.

(** ** Reading the events of a run *)

Definition transcription_calls (evs : list Event)
    : list (TranscriptionRequest * Outcome jsval) :=
  omap (fun e => match e with
                 | TranscriptionsCreate req ans => Some (req, ans)
                 | _ => None
                 end) evs.

(** The text a completion stage hands on: the content of the first
    choice, or the fallback when the stage has failed. *)
Definition content_or (ans : Outcome Completion) (fallback : jsstring) : jsstring :=
  match ans with
  | Raises _ => fallback
  | Returns c =>
      match choices c with
      | [] => fallback
      | ch :: _ => or_else (message_content ch) fallback
      end
  end.

(** What a chunk's pipeline leaves alone: the session. *)
Definition same_session (w w' : World) : Prop :=
  isRecording (recorder w') = isRecording (recorder w)
  /\ isPaused (recorder w') = isPaused (recorder w)
  /\ apiKeyMissing (recorder w') = apiKeyMissing (recorder w)
  /\ mediaRecorderRef (recorder w') = mediaRecorderRef (recorder w)
  /\ streamRef (recorder w') = streamRef (recorder w)
  /\ audioContextRef (recorder w') = audioContextRef (recorder w)
  /\ chunksRef (recorder w') = chunksRef (recorder w)
  /\ host w' = host w
  /\ analyser (app w') = analyser (app w)
  /\ app_isRecording (app w') = app_isRecording (app w)
  /\ language (app w') = language (app w).

Definition add_events (evs : list Event) (w : World) : World :=
  {| app := app w; recorder := recorder w; host := host w;
     trace := trace w ++ evs; clock_reads := clock_reads w |}.

(** The console line a completion stage writes when it has raised, also
    on reading the content of a missing first choice. *)
Definition failure_log (label : String.string) (ans : Outcome Completion) : list Event :=
  match ans with
  | Raises _ => [Console Error (lit label)]
  | Returns c =>
      match choices c with
      | [] => [Console Error (lit label)]
      | _ :: _ => []
      end
  end.

(** The instruction [translateText] builds when no target language is
    passed. *)
Definition english_instruction : jsstring :=
  lit "You are a professional translator. Translate the user input into English. If it is already English, just refine it slightly.".

(** ** Concrete environments *)

Module Runs.

Import Scenario.

Definition heard : Outcome jsval := Returns (VString (lit "hello world")).
Definition blank : Outcome jsval := Returns (VString (lit "   ")).
Definition nothing : Outcome Completion := Returns {| choices := [] |}.
Definition null_content : Outcome Completion :=
  Returns {| choices := [ {| message_content := None |} ] |}.

(** Stage 1 is down. *)
Definition stage1_down : Env :=
  answering (Returns [Live]) (Raises outage) nothing nothing true.
(** Stage 1 hears white space. *)
Definition stage1_blank : Env :=
  answering (Returns [Live]) blank nothing nothing true.
(** Stage 2 is down, stage 3 translates. *)
Definition stage2_down : Env :=
  answering (Returns [Live]) heard (Raises outage)
    (Returns (completion_of "Bonjour le monde.")) true.
(** Stage 2 corrects, stage 3 answers with a null content. *)
Definition stage3_null : Env :=
  answering (Returns [Live]) heard (Returns (completion_of "Hello world."))
    null_content true.

(** The microphone is refused. *)
Definition denied : JsError :=
  {| name := Some (lit "NotAllowedError"); message := Some (lit "Permission denied") |}.
Definition mic_denied : Env :=
  answering (Raises denied) heard nothing nothing true.
(** The credential is missing; the microphone would be granted. *)
Definition no_key : Env :=
  answering (Returns [Live]) heard nothing nothing false.
(** A clock that reads the same millisecond every time. *)
Definition frozen_clock : Env :=
  {| getUserMedia := fun _ => Returns [Live];
     transcriptions_create := fun _ _ => heard;
     chat_completions_create := fun _ _ => nothing;
     Date_now := fun _ => 1700000000000;
     toLocaleTimeString := fun _ => lit "10:00:00 AM";
     isApiKeyConfigured := true |}.

(** A page that was mounted and whose start button was clicked. *)
Definition started (env : Env) (rev : Revision) : World :=
  exec (handle_event env rev ClickStart) (exec (mount_effect env rev) initial_world).

Definition korean : jsstring := lit "ko".
Definition request : TranscriptionRequest :=
  transcription_request (speech_file chunk) korean.

End Runs.

(* ===================================================================== *)
(** * components/AudioVisualizer.tsx *)
(* ===================================================================== *)

(** Numbers are the binary64 numbers of JavaScript. [Math.cos] and
    [Math.sin] are left to the host, as the language leaves them. *)

Module Visualizer.

Local Open Scope float_scope.

(** [Math.PI] *)
Definition Math_PI : float := 0x1.921fb54442d18p+1.

(** A number that holds an integer below 2^63, as the length of an array
    or one of its bytes. *)
Definition of_int (n : Z) : float := PrimFloat.of_uint63 (Uint63.of_Z n).

(** [Math.floor(f)], as the integer it is; none for NaN and the infinities. *)
Definition Math_floor (f : float) : option Z :=
  match Prim2SF f with
  | S754_zero _ => Some 0%Z
  | S754_finite s m e =>
      let v := if s then Z.neg m else Z.pos m in
      Some (if (0 <=? e)%Z then v * 2 ^ e else v / 2 ^ (- e))%Z
  | S754_infinity _ | S754_nan => None
  end.

(** [a % n] on an integer [a] and a length [n]: the remainder has the
    sign of [a]; NaN when [n] is zero. *)
Definition js_rem (a : option Z) (n : Z) : option Z :=
  match a with
  | Some a => if (n =? 0)%Z then None else Some (Z.rem a n)
  | None => None
  end.

(** [dataArray[i] || 0] on a [Uint8Array]: an index that is not one of
    the array reads undefined. *)
Definition element_or_0 (dataArray : list Z) (i : option Z) : Z :=
  match i with
  | Some i => if (i <? 0)%Z then 0%Z else default 0%Z (dataArray !! Z.to_nat i)
  | None => 0%Z
  end.

Record Dot := {
  x : float;
  y : float;
  baseR : float;
  angle : float;
  speed : float
}.

(** One of the dots of [for (let i = 0; i < numDots; i++)], from the three
    numbers [Math.random()] gave it. *)
Definition new_dot (random1 random2 random3 : float) (cos sin : float -> float) : Dot :=
  let angle := random1 * Math_PI * 2 in
  let radius := random2 * 50 + 50 in
  {| x := cos angle * radius;
     y := sin angle * radius;
     baseR := radius;
     angle := angle;
     speed := (random3 - 0.5) * 0.02 |}.

Definition numDots : nat := 150.

(** [for (let i = 0; i < numDots; i++) dots.push({ ... })], on the numbers
    [Math.random()] gives, in the order of the calls. *)
Definition new_dots (random : nat -> float) (cos sin : float -> float) : list Dot :=
  List.map (fun i => new_dot (random (3 * i)%nat) (random (3 * i + 1)%nat)
                             (random (3 * i + 2)%nat) cos sin)
           (seq 0 numDots).

Section Draw.

Variables Math_cos Math_sin : float -> float.

(** The bytes [analyser.getByteFrequencyData] has written, and
    [analyser.frequencyBinCount]. *)
Variable dataArray : list Z.
Variable bufferLength : Z.

(** [for (let i = 0; i < bufferLength; i++) sum += dataArray[i]] *)
Definition sum : float :=
  fold_left (fun sum i =>
               match dataArray !! i with
               | Some v => sum + of_int v
               | None => nan
               end)
            (seq 0 (Z.to_nat bufferLength)) 0.

Definition average : float := sum / of_int bufferLength.

Definition scale : float := 1 + (average / 128) * 1.5.

Definition binIndex (dot : Dot) : option Z :=
  js_rem (Math_floor (((angle dot + Math_PI) / (2 * Math_PI)) * of_int bufferLength))
         bufferLength.

Definition freqValue (dot : Dot) : Z := element_or_0 dataArray (binIndex dot).

Definition currentRadius (dot : Dot) : float :=
  baseR dot * scale + (of_int (freqValue dot) / 255) * 40.

(** [ctx.arc(x, y, radius, 0, Math.PI * 2)] *)
Record Arc := { arc_x : float; arc_y : float; arc_radius : float }.

(** The body of [dots.forEach]: the dot after [dot.angle += dot.speed],
    and the arc that is filled. *)
Definition draw_dot (dot : Dot) : Dot * Arc :=
  let r := currentRadius dot in
  let angle' := angle dot + speed dot in
  ({| x := x dot; y := y dot; baseR := baseR dot; angle := angle'; speed := speed dot |},
   {| arc_x := Math_cos angle' * r;
      arc_y := Math_sin angle' * r;
      arc_radius := 2 + (of_int (freqValue dot) / 255) * 3 |}).

(** One frame: the rotation of the canvas, from [Date.now()], the arcs,
    and the dots as the frame leaves them. The other calls on the canvas
    (clearing, saving, translating, the fill style, restoring) take no
    part in what is computed. *)
Record Frame := { rotation : float; arcs : list Arc }.

Definition draw (now : Z) (dots : list Dot) : list Dot * Frame :=
  let time := of_int now * 0.001 in
  let drawn := List.map draw_dot dots in
  (List.map fst drawn, {| rotation := time * 0.2; arcs := List.map snd drawn |}).

End Draw.

(** The dots after some frames, each with its clock reading and its
    frequency data. *)
Fixpoint animate (cos sin : float -> float) (bufferLength : Z)
    (frames : list (Z * list Z)) (dots : list Dot) : list Dot :=
  match frames with
  | [] => dots
  | (now, dataArray) :: frames' =>
      animate cos sin bufferLength frames'
        (fst (draw cos sin dataArray bufferLength now dots))
  end.

(** One dot through the same frames. *)
Fixpoint animate_dot (cos sin : float -> float) (bufferLength : Z)
    (frames : list (Z * list Z)) (dot : Dot) : Dot :=
  match frames with
  | [] => dot
  | (now, dataArray) :: frames' =>
      animate_dot cos sin bufferLength frames'
        (fst (draw_dot cos sin dataArray bufferLength dot))
  end.

(** Every bin at full energy, on the 128 bins of the published analyser. *)
Definition loud : list Z := repeat 255%Z 128.

(** The dot [Math.random() = 0] gives three times: angle 0, base radius
    50, speed -0.01. *)
Definition slow_dot (cos sin : float -> float) : Dot := new_dot 0 0 0 cos sin.

(** [Math.random()] when it gives 0 every time. *)
Definition random_0 : nat -> float := fun _ => 0.

End Visualizer.

(* ===================================================================== *)
(** * The rest of the page *)
(* ===================================================================== *)

(** The test of the [catch] of [processChunk] in the revision with the
    key check, and the message it sets:
    [error.message?.includes('API') || ...('401') || ...('403')] *)
Definition api_like (e : JsError) : bool :=
  message_includes e (lit "API") || message_includes e (lit "401")
  || message_includes e (lit "403").

Definition api_error_message : jsstring :=
  lit "OpenAI API error. Please check your API key configuration.".


(** A computation that only ever adds to the trace. *)
Definition grows {A} (c : M A) : Prop :=
  forall w, exists evs, trace (exec c w) = trace w ++ evs.

(** The microphone was granted somewhere in these events. *)
Definition granted (evs : list Event) : Prop :=
  exists tracks, In (GetUserMedia (Returns tracks)) evs.

(** Every transcription request of the trace has a grant before it. *)
Definition transcribes_after_grant (evs : list Event) : Prop :=
  forall pre req ans post,
    evs = pre ++ TranscriptionsCreate req ans :: post -> granted pre.

Definition is_console (e : Event) : Prop :=
  match e with Console _ _ => True | _ => False end.

(** ** App.tsx: saving the log *)

(** [parts.join(sep)] *)
Fixpoint join (sep : jsstring) (parts : list jsstring) : jsstring :=
  match parts with
  | [] => []
  | p :: rest =>
      match rest with
      | [] => p
      | _ :: _ => p ++ sep ++ join sep rest
      end
  end.

(** The line feed of the template literals. *)
Definition LF : jsstring := [10%N].

(** [`[${t.timestamp}] Original: ${t.original}\nTranslation: ${t.translation}\n`] *)
Definition format_item (t : TranscriptItem) : jsstring :=
  lit "[" ++ timestamp t ++ lit "] Original: " ++ original t ++ LF
  ++ lit "Translation: " ++ translation t ++ LF.

(** The separator of [join('\n---\n\n')] *)
Definition separator : jsstring := LF ++ lit "---" ++ LF ++ LF.

(** The text [downloadTranscript] puts in the file. *)
Definition download_content (transcripts : list TranscriptItem) : jsstring :=
  join separator (List.map format_item transcripts).

(** [`zrah-transcript-${new Date().toISOString()}.txt`], on the ISO
    string the host gives. *)
Definition download_name (iso : jsstring) : jsstring :=
  lit "zrah-transcript-" ++ iso ++ lit ".txt".

(** [disabled={transcripts.length === 0}] of the save button *)
Definition save_disabled (transcripts : list TranscriptItem) : bool :=
  (length transcripts =? 0)%nat.

(** ** components/LanguageSelector.tsx *)

Module LanguageSelector.

Record Language := { code : jsstring; name : jsstring }.

Definition languages : list Language :=
  [ {| code := lit "ko"; name := lit "Korean" |};
    {| code := lit "en"; name := lit "English" |};
    {| code := lit "id"; name := lit "Indonesian" |};
    {| code := lit "fr"; name := lit "French" |};
    {| code := lit "zh"; name := lit "Chinese" |} ].

(** [languages.find(l => l.code === language) || languages[0]] *)
Definition selectedLang (language : jsstring) : Language :=
  match List.find (fun l => bool_decide (code l = language)) languages with
  | Some l => l
  | None => {| code := lit "ko"; name := lit "Korean" |}
  end.

(** The state of the dropdown, and its two clicks: on the button,
    [setIsOpen(!isOpen)]; on an option, [setLanguage(lang.code)] and
    [setIsOpen(false)]. *)
Definition toggle (isOpen : bool) : bool := negb isOpen.

Definition choose (lang : Language) (a : AppState) (isOpen : bool) : AppState * bool :=
  (app_language (code lang) a, false).

End LanguageSelector.

(** ** The sizes the visualizer draws *)

Module VisualizerBounds.

Import Visualizer.
Local Open Scope float_scope.

(** The contribution of a bin's energy to a dot's radius, and the size
    of the disc drawn for the dot, as [draw] computes them. *)
Definition contribution (v : Z) : float := (of_int v / 255) * 40.
Definition dot_size (v : Z) : float := 2 + (of_int v / 255) * 3.

Definition in_range (v : Z) : bool :=
  (0 <=? contribution v) && (contribution v <=? 40)
  && (2 <=? dot_size v) && (dot_size v <=? 5).

End VisualizerBounds.

(* ===================================================================== *)
(** * Properties *)
(* ===================================================================== *)

Arguments lit : simpl never.
Arguments SYSTEM_PROMPT_CORRECTION : simpl never.
Arguments translator_instruction : simpl never.
Arguments no_transcript : simpl never.
Arguments errorMessage : simpl never.
Arguments message_includes : simpl never.

(** ** Strings *)

Lemma trimStart_white s : forallb is_white_space s = true -> trimStart s = [].
Proof.
  induction s as [|c s IH]; simpl; [reflexivity|].
  intros H. apply andb_prop in H as [Hc Hs]. rewrite Hc. auto.
Qed.

Lemma trim_white s : forallb is_white_space s = true -> trim s = [].
Proof. intros H. unfold trim, trimEnd. rewrite (trimStart_white s H). reflexivity. Qed.

Lemma trimStart_nil_white s : trimStart s = [] -> forallb is_white_space s = true.
Proof.
  induction s as [|c s IH]; simpl; [reflexivity|].
  destruct (is_white_space c); [auto | discriminate].
Qed.

Lemma trim_nil_white s : trim s = [] -> forallb is_white_space s = true.
Proof.
  unfold trim, trimEnd. intros H.
  assert (Hr : trimStart (rev (trimStart s)) = []).
  { rewrite <- (rev_involutive (trimStart (rev (trimStart s)))). rewrite H. reflexivity. }
  apply trimStart_nil_white in Hr.
  assert (Ht : forallb is_white_space (trimStart s) = true).
  { rewrite forallb_forall in *. intros x Hx. apply Hr. apply -> in_rev. exact Hx. }
  clear H Hr. induction s as [|c s IH]; simpl in *; [reflexivity|].
  destruct (is_white_space c) eqn:E; simpl; [auto|].
  simpl in Ht. rewrite E in Ht. discriminate.
Qed.

(** A transcription is passed on exactly when it is a string with a
    character that is not white space. *)
Lemma no_transcript_false v :
  no_transcript v = false <->
  exists s, v = VString s /\ forallb is_white_space s = false.
Proof.
  unfold no_transcript. split.
  - destruct v as [| |s|]; simpl; try discriminate.
    intros H. exists s. split; [reflexivity|].
    apply orb_false_iff in H as [_ H]. apply Nat.eqb_neq in H.
    destruct (forallb is_white_space s) eqn:E; [|reflexivity].
    rewrite (trim_white s E) in H. simpl in H. congruence.
  - intros (s & -> & H). simpl.
    destruct (trim s) eqn:E.
    + apply trim_nil_white in E. congruence.
    + destruct s; [discriminate|]. reflexivity.
Qed.

Lemma no_transcript_white s :
  forallb is_white_space s = true -> no_transcript (VString s) = true.
Proof.
  intros H. destruct (no_transcript (VString s)) eqn:E; [reflexivity|].
  apply no_transcript_false in E as (s' & [= <-] & E). congruence.
Qed.

(** ** Examples *)

Example trim_example :
  trim (lit "  hello world
 ") = lit "hello world".
Proof. reflexivity. Qed.

Example includes_example :
  includes (lit "Requested device not found") (lit "not found") = true
  /\ includes (lit "Permission denied") (lit "not found") = false.
Proof. split; reflexivity. Qed.

Example scenario_one_item :
  forall rev,
    List.map (fun i => (original i, translation i)) (transcripts (app (Scenario.run rev)))
    = [ (lit "Hello world.", lit "Bonjour le monde.") ].
Proof. intros []; vm_compute; reflexivity. Qed.

Example scenario_recording :
  forall rev,
    isRecording (recorder (Scenario.run rev)) = true
    /\ recorder_state 2%nat (Scenario.run rev) = Recording
    /\ streams (host (Scenario.run rev)) !! 0%nat = Some [Live].
Proof. intros []; vm_compute; auto. Qed.

(** The analyser a started session publishes has 128 frequency bins. *)
Example published_analyser_bins :
  forall rev,
    frequencyBinCount <$> analyser (app (Runs.started Scenario.env rev)) = Some 128.
Proof. intros []; vm_compute; reflexivity. Qed.

(** ** Runs of the chunk pipeline *)

Ltac unfold_m :=
  unfold bind, try_catch, ret, throw, modify, get, console, first_content,
    client_audio_transcriptions_create, client_chat_completions_create.

Ltac unfold_updates :=
  unfold add_events, emit, read_clock, with_app, with_recorder, with_host,
    app_transcripts, app_analyser, app_recording, app_caption, app_timers, app_language,
    rec_isRecording, rec_isPaused, rec_error, rec_processingStatus, rec_apiKeyMissing,
    rec_mediaRecorderRef, rec_chunksRef, rec_streamRef, rec_audioContextRef,
    host_alloc, host_streams, host_contexts, host_recorders in *.

Ltac same_world :=
  cbn; unfold_updates; cbn; rewrite <- ?app_assoc; reflexivity.

Lemma transcribeAudio_run env audioFile language w :
  let req := transcription_request audioFile language in
  let ans := transcriptions_create env (length (trace w)) req in
  transcribeAudio env audioFile language w
  = (ans, add_events (TranscriptionsCreate req ans ::
                      match ans with
                      | Raises _ => [Console Error (lit "Transcription error:")]
                      | Returns _ => []
                      end) w).
Proof.
  cbv zeta. unfold transcribeAudio. unfold_m.
  destruct (transcriptions_create env _ _); same_world.
Qed.

Lemma correctTranscript_run env transcript w :
  let req := correction_request transcript in
  let ans := chat_completions_create env (length (trace w)) req in
  correctTranscript env transcript w
  = (Returns (content_or ans transcript),
     add_events (ChatCompletionsCreate req ans :: failure_log "Correction error:" ans) w).
Proof.
  cbv zeta. unfold correctTranscript. unfold_m.
  destruct (chat_completions_create env _ _) as [[[|ch chs]]|e]; same_world.
Qed.

Lemma translateText_run env text targetLang w :
  let req := translation_request text (default (lit "en") targetLang) in
  let ans := chat_completions_create env (length (trace w)) req in
  translateText env text targetLang w
  = (Returns (content_or ans (lit "")),
     add_events (ChatCompletionsCreate req ans :: failure_log "Translation error:" ans) w).
Proof.
  cbv zeta. unfold translateText. unfold_m.
  destruct (chat_completions_create env _ _) as [[[|ch chs]]|e]; same_world.
Qed.

Lemma handleNewTranscript_run env original translation w :
  handleNewTranscript env original translation w
  = (Returns tt,
     with_app (fun a =>
       app_timers (fun ts => ts ++ [(6000, translation)])
         (app_caption (fun _ => translation)
            (app_transcripts (fun prev => prev ++
               [ {| id := Date_now env (clock_reads w);
                    original := original;
                    translation := translation;
                    timestamp := toLocaleTimeString env (Date_now env (S (clock_reads w))) |} ])
               a)))
       (read_clock (read_clock w))).
Proof. reflexivity. Qed.

Ltac name_stage1 ans :=
  match goal with |- context [transcriptions_create ?a ?b ?c] =>
    set (ans := transcriptions_create a b c) end.

Ltac name_chat ans :=
  match goal with |- context [chat_completions_create ?a (length ?b) ?c] =>
    lazymatch b with
    | context [chat_completions_create] => fail
    | _ => idtac
    end;
    set (ans := chat_completions_create a (length b) c)
  end.

Ltac finish_run ans2 ans3 :=
  split;
  [ destruct ans2 as [[[|? ?]]|?], ans3 as [[[|? ?]]|?]; reflexivity |];
  split; [reflexivity|];
  split; [repeat split; reflexivity|];
  exists ans2, ans3; split;
  [ destruct ans2 as [[[|? ?]]|?], ans3 as [[[|? ?]]|?]; reflexivity
  | reflexivity ].

Lemma processChunk_run env rev language chunk w :
  let c := processChunk_of env rev language chunk in
  let evs := events_of c w in
  let w' := exec c w in
  exists ans1,
    transcription_calls evs
      = [ (transcription_request (speech_file chunk) language, ans1) ]
    /\ result c w = Returns tt
    /\ same_session w w'
    /\ match ans1 with
       | Raises _ =>
           chat_calls evs = [] /\ transcripts (app w') = transcripts (app w)
       | Returns v =>
           if no_transcript v then
             chat_calls evs = [] /\ transcripts (app w') = transcripts (app w)
           else
             exists ans2 ans3,
               let corrected := content_or ans2 (as_string v) in
               chat_calls evs
                 = [ (correction_request (as_string v), ans2);
                     (translation_request corrected (lit "en"), ans3) ]
               /\ transcripts (app w')
                  = transcripts (app w) ++
                    [ {| id := Date_now env (clock_reads w);
                         original := corrected;
                         translation := content_or ans3 (lit "");
                         timestamp :=
                           toLocaleTimeString env (Date_now env (S (clock_reads w))) |} ]
       end.
Proof.
  cbv zeta. unfold events_of, exec, result, same_session.
  destruct rev; cbn [processChunk_of].
  - unfold processChunk, bind, try_catch.
    rewrite transcribeAudio_run. name_stage1 ans1.
    exists ans1. destruct ans1 as [v|e].
    + destruct (no_transcript v) eqn:Hv.
      * cbn. rewrite drop_app_length. cbn. repeat split; reflexivity.
      * rewrite correctTranscript_run. name_chat ans2.
        rewrite translateText_run. name_chat ans3.
        unfold onNewTranscript. rewrite handleNewTranscript_run. cbn.
        rewrite <- !app_assoc, drop_app_length. clearbody ans2 ans3.
        finish_run ans2 ans3.
    + unfold_m. cbn. rewrite <- !app_assoc, drop_app_length. cbn.
      repeat split; reflexivity.
  - unfold processChunk_keycheck, bind, try_catch, setProcessingStatus, setError.
    unfold_m. cbn -[transcribeAudio correctTranscript translateText onNewTranscript].
    rewrite transcribeAudio_run. name_stage1 ans1.
    exists ans1. destruct ans1 as [v|e].
    + cbn -[correctTranscript translateText onNewTranscript].
      destruct (no_transcript v) eqn:Hv.
      * cbn. rewrite <- !app_assoc, drop_app_length. cbn. repeat split; reflexivity.
      * cbn -[correctTranscript translateText onNewTranscript].
        rewrite correctTranscript_run. name_chat ans2.
        cbn -[translateText onNewTranscript].
        rewrite translateText_run. name_chat ans3.
        unfold onNewTranscript. rewrite handleNewTranscript_run. cbn.
        rewrite <- !app_assoc, drop_app_length. clearbody ans2 ans3.
        finish_run ans2 ans3.
    + cbn.
      destruct (message_includes e (lit "API") || message_includes e (lit "401")
                || message_includes e (lit "403"));
        cbn; rewrite <- !app_assoc, drop_app_length; cbn; repeat split; reflexivity.
Qed.

Lemma in_transcription_calls evs req ans :
  In (TranscriptionsCreate req ans) evs <-> In (req, ans) (transcription_calls evs).
Proof.
  unfold transcription_calls. induction evs as [|e evs IH]; simpl; [tauto|].
  destruct e; simpl; rewrite <- IH; intuition congruence.
Qed.

Lemma in_chat_calls evs req ans :
  In (ChatCompletionsCreate req ans) evs <-> In (req, ans) (chat_calls evs).
Proof.
  unfold chat_calls. induction evs as [|e evs IH]; simpl; [tauto|].
  destruct e; simpl; rewrite <- IH; intuition congruence.
Qed.

Lemma content_or_no_content ans fallback :
  no_content ans = true -> content_or ans fallback = fallback.
Proof.
  destruct ans as [ [ [ | [ [ s | ] ] chs ] ] | e ]; simpl; try reflexivity; try discriminate.
  destruct (bool_decide (s = [])); simpl; [reflexivity | discriminate].
Qed.

Lemma content_or_nonempty ans fallback :
  fallback <> [] -> content_or ans fallback <> [].
Proof.
  intros H. destruct ans as [ [ [ | [ [ s | ] ] chs ] ] | e ]; simpl; try exact H.
  destruct (bool_decide (s = [])) eqn:E; [exact H|].
  apply bool_decide_eq_false in E. exact E.
Qed.

Lemma correction_is_not_translation t text lang :
  correction_request t <> translation_request text lang.
Proof. unfold correction_request, translation_request. intros H. discriminate H. Qed.

Lemma correction_request_inj t t' :
  correction_request t = correction_request t' -> t = t'.
Proof. unfold correction_request. intros H. injection H as H. exact H. Qed.

Lemma translation_request_text text lang text' lang' :
  translation_request text lang = translation_request text' lang' -> text = text'.
Proof. unfold translation_request. intros H. injection H as _ H. exact H. Qed.

(** ** The chunk pipeline *)

Ltac pair_eq H Hreq Hans :=
  pose proof (f_equal fst H) as Hreq; pose proof (f_equal snd H) as Hans;
  cbn [fst snd] in Hreq, Hans; clear H.

(** C1. For every chunk, in both revisions: the transcript log changes
    only if stage 1 returned, and returned a string that is not empty
    (nor blank); and if the stage-1 call raises, the log is what it was,
    the session (recording flags, refs, host objects, published analyser)
    is what it was, and [processChunk] itself returns normally. *)
Theorem C1_item_only_after_stage1 env rev language chunk w :
  let c := processChunk_of env rev language chunk in
  let w' := exec c w in
  (transcripts (app w') <> transcripts (app w) ->
   exists req s,
     In (TranscriptionsCreate req (Returns (VString s))) (events_of c w)
     /\ s <> [] /\ trim s <> [])
  /\ (forall req e,
        In (TranscriptionsCreate req (Raises e)) (events_of c w) ->
        transcripts (app w') = transcripts (app w)
        /\ same_session w w'
        /\ result c w = Returns tt).
Proof.
  cbv zeta.
  destruct (processChunk_run env rev language chunk w)
    as (ans1 & Hcalls & Hres & Hsess & Hcase).
  cbv zeta in *. split.
  - intros Hchanged. destruct ans1 as [v|e]; [|tauto].
    destruct (no_transcript v) eqn:Hv; [tauto|].
    apply no_transcript_false in Hv as (s & -> & Hs).
    exists (transcription_request (speech_file chunk) language), s. split.
    + apply in_transcription_calls. rewrite Hcalls. left. reflexivity.
    + split.
      * intros ->. discriminate Hs.
      * intros Ht. apply trim_nil_white in Ht. congruence.
  - intros req e Hin. apply in_transcription_calls in Hin.
    rewrite Hcalls in Hin. destruct Hin as [Hin|[]].
    injection Hin as _ ->. tauto.
Qed.

(** C3. For every chunk whose stage-1 output is a string that is empty
    or holds white space only, no item is appended and no chat completion
    is requested: neither stage 2 nor stage 3 is invoked. *)
Theorem C3_blank_transcript_is_dropped env rev language chunk w req s :
  let c := processChunk_of env rev language chunk in
  In (TranscriptionsCreate req (Returns (VString s))) (events_of c w) ->
  forallb is_white_space s = true ->
  transcripts (app (exec c w)) = transcripts (app w)
  /\ forall req' ans, ~ In (ChatCompletionsCreate req' ans) (events_of c w).
Proof.
  cbv zeta. intros Hin Hs.
  destruct (processChunk_run env rev language chunk w)
    as (ans1 & Hcalls & _ & _ & Hcase).
  cbv zeta in *.
  apply in_transcription_calls in Hin. rewrite Hcalls in Hin.
  destruct Hin as [Hin|[]]. injection Hin as _ ->.
  rewrite (no_transcript_white s Hs) in Hcase. destruct Hcase as [Hchat Hlog].
  split; [exact Hlog|].
  intros req' ans H. apply in_chat_calls in H. rewrite Hchat in H. destruct H.
Qed.

(** C4. For every chunk whose stage-2 call raises or comes back without
    content: the text [t] sent to stage 2 is the stage-1 transcript, stage 3
    is still called, on [t] itself, one item is appended, its original
    text is [t], and [processChunk] returns normally. *)
Theorem C4_correction_failure_falls_back env rev language chunk w t ans2 :
  let c := processChunk_of env rev language chunk in
  In (ChatCompletionsCreate (correction_request t) ans2) (events_of c w) ->
  no_content ans2 = true ->
  (exists req1, In (TranscriptionsCreate req1 (Returns (VString t))) (events_of c w))
  /\ (exists ans3,
        In (ChatCompletionsCreate (translation_request t (lit "en")) ans3) (events_of c w))
  /\ (exists item,
        transcripts (app (exec c w)) = transcripts (app w) ++ [item]
        /\ original item = t)
  /\ result c w = Returns tt.
Proof.
  cbv zeta. intros Hin Hfail.
  destruct (processChunk_run env rev language chunk w)
    as (ans1 & Hcalls & Hres & _ & Hcase).
  cbv zeta in *.
  apply in_chat_calls in Hin.
  destruct ans1 as [v|e]; [|destruct Hcase as [Hc _]; rewrite Hc in Hin; destruct Hin].
  destruct (no_transcript v) eqn:Hv;
    [destruct Hcase as [Hc _]; rewrite Hc in Hin; destruct Hin|].
  destruct Hcase as (a2 & a3 & Hchat & Hlog).
  apply no_transcript_false in Hv as (s & -> & Hs). simpl in *.
  rewrite Hchat in Hin. destruct Hin as [Hin|[Hin|[]]].
  - pair_eq Hin Hreq Hans. apply correction_request_inj in Hreq. subst s a2.
    rewrite (content_or_no_content _ _ Hfail) in *.
    split; [|split; [|split]].
    + eexists. apply in_transcription_calls. rewrite Hcalls. left. reflexivity.
    + exists a3. apply in_chat_calls. rewrite Hchat. right. left. reflexivity.
    + eexists. split; [exact Hlog | reflexivity].
    + exact Hres.
  - pair_eq Hin Hreq Hans. symmetry in Hreq.
    destruct (correction_is_not_translation _ _ _ Hreq).
Qed.

(** C5. For every chunk whose stage-3 call raises or comes back without
    content: one item is appended, its translation is the empty string,
    and its original text is the text that was sent to stage 3, which is
    not empty. *)
Theorem C5_translation_failure_leaves_empty env rev language chunk w text lang ans3 :
  let c := processChunk_of env rev language chunk in
  In (ChatCompletionsCreate (translation_request text lang) ans3) (events_of c w) ->
  no_content ans3 = true ->
  exists item,
    transcripts (app (exec c w)) = transcripts (app w) ++ [item]
    /\ translation item = lit ""
    /\ original item = text
    /\ original item <> [].
Proof.
  cbv zeta. intros Hin Hfail.
  destruct (processChunk_run env rev language chunk w)
    as (ans1 & Hcalls & Hres & _ & Hcase).
  cbv zeta in *.
  apply in_chat_calls in Hin.
  destruct ans1 as [v|e]; [|destruct Hcase as [Hc _]; rewrite Hc in Hin; destruct Hin].
  destruct (no_transcript v) eqn:Hv;
    [destruct Hcase as [Hc _]; rewrite Hc in Hin; destruct Hin|].
  destruct Hcase as (a2 & a3 & Hchat & Hlog).
  apply no_transcript_false in Hv as (s & -> & Hs). simpl in *.
  rewrite Hchat in Hin. destruct Hin as [Hin|[Hin|[]]].
  - pair_eq Hin Hreq Hans.
    destruct (correction_is_not_translation _ _ _ Hreq).
  - pair_eq Hin Hreq Hans. subst a3. apply translation_request_text in Hreq.
    eexists. split; [exact Hlog|]. simpl.
    split; [apply content_or_no_content; exact Hfail|].
    split; [exact Hreq|].
    apply content_or_nonempty. intros ->. discriminate Hs.
Qed.

Lemma translator_instruction_default :
  translator_instruction (default (lit "en") None) = english_instruction.
Proof. vm_compute. reflexivity. Qed.

(** C9. For every chunk and every selected language: a chat call of the
    chunk that is not the correction call of stage 2 is the call of
    [translateText] with the default target, and its system message asks
    for a translation into English. *)
Theorem C9_translation_targets_english env rev language chunk w req ans :
  let c := processChunk_of env rev language chunk in
  In (ChatCompletionsCreate req ans) (events_of c w) ->
  (forall t, req <> correction_request t) ->
  exists text,
    req = translation_request text (lit "en")
    /\ ch_messages req
       = [ {| role := System; content := english_instruction |};
           {| role := User; content := text |} ].
Proof.
  cbv zeta. intros Hin Hnot.
  destruct (processChunk_run env rev language chunk w)
    as (ans1 & _ & _ & _ & Hcase).
  cbv zeta in *.
  apply in_chat_calls in Hin.
  destruct ans1 as [v|e]; [|destruct Hcase as [Hc _]; rewrite Hc in Hin; destruct Hin].
  destruct (no_transcript v) eqn:Hv;
    [destruct Hcase as [Hc _]; rewrite Hc in Hin; destruct Hin|].
  destruct Hcase as (a2 & a3 & Hchat & _).
  rewrite Hchat in Hin. destruct Hin as [Hin|[Hin|[]]].
  - pair_eq Hin Hreq Hans. subst req. destruct (Hnot _ eq_refl).
  - pair_eq Hin Hreq Hans. subst req. eexists. split; [reflexivity|].
    unfold translation_request. simpl.
    rewrite <- translator_instruction_default. reflexivity.
Qed.

(** *** The pipeline on concrete chunks *)

Lemma C1_item_only_after_stage1_witness :
  let c := processChunk_of Runs.stage1_down KeyCheck Runs.korean Scenario.chunk in
  In (TranscriptionsCreate Runs.request (Raises Scenario.outage)) (events_of c initial_world)
  /\ transcripts (app (exec c initial_world)) = transcripts (app initial_world)
  /\ same_session initial_world (exec c initial_world)
  /\ result c initial_world = Returns tt.
Proof.
  cbv zeta. split.
  - vm_compute. auto.
  - apply (proj2 (C1_item_only_after_stage1 Runs.stage1_down KeyCheck Runs.korean
                    Scenario.chunk initial_world) Runs.request Scenario.outage).
    vm_compute. auto.
Defined.

Lemma C3_blank_transcript_is_dropped_witness :
  let c := processChunk_of Runs.stage1_blank Plain Runs.korean Scenario.chunk in
  In (TranscriptionsCreate Runs.request (Returns (VString (lit "   "))))
     (events_of c initial_world)
  /\ forallb is_white_space (lit "   ") = true
  /\ transcripts (app (exec c initial_world)) = transcripts (app initial_world)
  /\ forall req' ans, ~ In (ChatCompletionsCreate req' ans) (events_of c initial_world).
Proof.
  cbv zeta.
  assert (H1 : In (TranscriptionsCreate Runs.request (Returns (VString (lit "   "))))
                 (events_of (processChunk_of Runs.stage1_blank Plain Runs.korean
                               Scenario.chunk) initial_world))
    by (vm_compute; auto).
  assert (H2 : forallb is_white_space (lit "   ") = true) by reflexivity.
  split; [exact H1|]. split; [exact H2|].
  exact (C3_blank_transcript_is_dropped Runs.stage1_blank Plain Runs.korean
           Scenario.chunk initial_world Runs.request (lit "   ") H1 H2).
Defined.

Lemma C4_correction_failure_falls_back_witness :
  let c := processChunk_of Runs.stage2_down Plain Runs.korean Scenario.chunk in
  let t := lit "hello world" in
  In (ChatCompletionsCreate (correction_request t) (Raises Scenario.outage))
     (events_of c initial_world)
  /\ no_content (Raises Scenario.outage) = true
  /\ (exists req1, In (TranscriptionsCreate req1 (Returns (VString t)))
                      (events_of c initial_world))
  /\ (exists ans3, In (ChatCompletionsCreate (translation_request t (lit "en")) ans3)
                      (events_of c initial_world))
  /\ (exists item,
        transcripts (app (exec c initial_world))
        = transcripts (app initial_world) ++ [item]
        /\ original item = t)
  /\ result c initial_world = Returns tt.
Proof.
  cbv zeta.
  assert (H1 : In (ChatCompletionsCreate (correction_request (lit "hello world"))
                     (Raises Scenario.outage))
                 (events_of (processChunk_of Runs.stage2_down Plain Runs.korean
                               Scenario.chunk) initial_world))
    by (vm_compute; auto).
  assert (H2 : no_content (Raises Scenario.outage) = true) by reflexivity.
  split; [exact H1|]. split; [exact H2|].
  exact (C4_correction_failure_falls_back Runs.stage2_down Plain Runs.korean
           Scenario.chunk initial_world (lit "hello world") (Raises Scenario.outage) H1 H2).
Defined.

Lemma C5_translation_failure_leaves_empty_witness :
  let c := processChunk_of Runs.stage3_null KeyCheck Runs.korean Scenario.chunk in
  let text := lit "Hello world." in
  In (ChatCompletionsCreate (translation_request text (lit "en")) Runs.null_content)
     (events_of c initial_world)
  /\ no_content Runs.null_content = true
  /\ exists item,
       transcripts (app (exec c initial_world))
       = transcripts (app initial_world) ++ [item]
       /\ translation item = lit ""
       /\ original item = text
       /\ original item <> [].
Proof.
  cbv zeta.
  assert (H1 : In (ChatCompletionsCreate
                     (translation_request (lit "Hello world.") (lit "en"))
                     Runs.null_content)
                 (events_of (processChunk_of Runs.stage3_null KeyCheck Runs.korean
                               Scenario.chunk) initial_world))
    by (vm_compute; auto 10).
  assert (H2 : no_content Runs.null_content = true) by reflexivity.
  split; [exact H1|]. split; [exact H2|].
  exact (C5_translation_failure_leaves_empty Runs.stage3_null KeyCheck Runs.korean
           Scenario.chunk initial_world (lit "Hello world.") (lit "en")
           Runs.null_content H1 H2).
Defined.

Lemma C9_translation_targets_english_witness :
  let c := processChunk_of Scenario.env Plain Runs.korean Scenario.chunk in
  let req := translation_request (lit "Hello world.") (lit "en") in
  let ans := Returns (Scenario.completion_of "Bonjour le monde.") in
  In (ChatCompletionsCreate req ans) (events_of c initial_world)
  /\ (forall t, req <> correction_request t)
  /\ exists text,
       req = translation_request text (lit "en")
       /\ ch_messages req
          = [ {| role := System; content := english_instruction |};
              {| role := User; content := text |} ].
Proof.
  cbv zeta.
  assert (H1 : In (ChatCompletionsCreate
                     (translation_request (lit "Hello world.") (lit "en"))
                     (Returns (Scenario.completion_of "Bonjour le monde.")))
                 (events_of (processChunk_of Scenario.env Plain Runs.korean
                               Scenario.chunk) initial_world))
    by (vm_compute; auto).
  assert (H2 : forall t, translation_request (lit "Hello world.") (lit "en")
                         <> correction_request t)
    by (intros t H; discriminate H).
  split; [exact H1|]. split; [exact H2|].
  exact (C9_translation_targets_english Scenario.env Plain Runs.korean Scenario.chunk
           initial_world _ _ H1 H2).
Defined.

(** ** App.tsx: the transcript log *)

(** C10. Every call of [handleNewTranscript] appends one item whose id
    is the reading of the clock the call takes; so when the clock reads
    the same millisecond at two successive appends, the two items carry
    the same id, and the ids of the log are not pairwise distinct. *)
Theorem C10_id_is_clock_reading env original1 translation1 original2 translation2 w :
  let w1 := exec (handleNewTranscript env original1 translation1) w in
  let w2 := exec (handleNewTranscript env original2 translation2) w1 in
  (exists item,
     transcripts (app w1) = transcripts (app w) ++ [item]
     /\ id item = Date_now env (clock_reads w))
  /\ (Date_now env (clock_reads w1) = Date_now env (clock_reads w) ->
      exists item1 item2,
        transcripts (app w2) = transcripts (app w) ++ [item1; item2]
        /\ id item1 = id item2
        /\ ~ NoDup (List.map id (transcripts (app w2)))).
Proof.
  cbv zeta. unfold exec. rewrite !handleNewTranscript_run. cbn. split.
  - eexists. split; reflexivity.
  - intros Hsame. eexists _, _. rewrite <- app_assoc. cbn.
    split; [reflexivity|]. split; [cbn; congruence|].
    rewrite List.map_app. cbn. rewrite Hsame. intros Hnd.
    apply NoDup_app in Hnd as (_ & _ & Hnd).
    apply NoDup_cons in Hnd as [Hnotin _]. apply Hnotin. left.
Qed.

(** ** Starting a session *)

Ltac unfold_recorder :=
  unfold startRecording_of, startRecording, startRecording_keycheck,
    acquire_and_record, microphone_failed,
    navigator_mediaDevices_getUserMedia, new_AudioContext, new_MediaRecorder,
    MediaRecorder_start, MediaRecorder_stop, MediaRecorder_pause, MediaRecorder_resume,
    stop_all_tracks, AudioContext_close, update_recorder,
    onAnalyserReady, onRecordingStateChange,
    setIsRecording, setIsPaused, setError, setProcessingStatus, setApiKeyMissing,
    dismissError;
  unfold_m.

Lemma startRecording_of_failed env rev w err :
  In (GetUserMedia (Raises err)) (events_of (startRecording_of env rev) w) ->
  startRecording_of env rev w
  = (Returns tt,
     add_events [GetUserMedia (Raises err);
                 Console Error (lit "Error accessing microphone:")]
       (with_recorder (rec_error (Some (errorMessage err))) w)).
Proof.
  unfold events_of, exec. destruct rev; unfold_recorder; cbn.
  - destruct (getUserMedia env (length (trace w))) as [tracks|e]; cbn;
      rewrite <- ?app_assoc, drop_app_length; cbn.
    + intros [H|[]]. discriminate H.
    + intros [H|[H|[]]]; [|discriminate H]. injection H as ->. same_world.
  - destruct (apiKeyMissing (recorder w)); cbn.
    + rewrite drop_all. intros [].
    + destruct (getUserMedia env (length (trace w))) as [tracks|e]; cbn;
        rewrite <- ?app_assoc, drop_app_length; cbn.
      * intros [H|[]]. discriminate H.
      * intros [H|[H|[]]]; [|discriminate H]. injection H as ->. same_world.
Qed.

(** The message of a failed acquisition, by the kind of the failure: a
    missing device (by name, or by a message that says not found), a
    denied permission, a busy device, and the rest, with or without a
    message of its own. *)
Lemma errorMessage_classes err :
  let not_found := name_is err (lit "NotFoundError") || message_includes err (lit "not found") in
  let denied := name_is err (lit "NotAllowedError") || name_is err (lit "PermissionDeniedError") in
  let busy := name_is err (lit "NotReadableError") in
  (not_found = true ->
     errorMessage err
     = lit "No microphone detected. Please connect a microphone and try again.")
  /\ (not_found = false -> denied = true ->
        errorMessage err
        = lit "Microphone access denied. Please allow microphone access in your browser settings.")
  /\ (not_found = false -> denied = false -> busy = true ->
        errorMessage err = lit "Microphone is in use by another application.")
  /\ (not_found = false -> denied = false -> busy = false ->
        forall m, message err = Some m -> m <> [] ->
        errorMessage err = lit "Microphone error: " ++ m)
  /\ (not_found = false -> denied = false -> busy = false ->
        truthy_str (message err) = false ->
        errorMessage err = lit "Unable to access microphone.")
  /\ errorMessage err <> [].
Proof.
  cbv zeta. unfold errorMessage.
  destruct (name_is err (lit "NotFoundError") || message_includes err (lit "not found")).
  { repeat split; intros; try discriminate; auto. }
  destruct (name_is err (lit "NotAllowedError") || name_is err (lit "PermissionDeniedError")).
  { repeat split; intros; try discriminate; auto. }
  destruct (name_is err (lit "NotReadableError")).
  { repeat split; intros; try discriminate; auto. }
  destruct (message err) as [m|] eqn:Hm; cbn.
  - destruct (bool_decide (m = [])) eqn:E; cbn.
    + apply bool_decide_eq_true in E. subst m.
      repeat split; intros; try discriminate; auto. congruence.
    + apply bool_decide_eq_false in E.
      repeat split; intros; try discriminate; auto. congruence.
  - repeat split; intros; try discriminate; auto.
Qed.

Lemma errorMessage_by_kind err :
  errorMessage err = message_of_kind (failure_kind err) err.
Proof.
  unfold errorMessage, failure_kind, message_of_kind.
  repeat match goal with |- context [if ?b then _ else _] => destruct b end; reflexivity.
Qed.

(** C6. For every call of [startRecording], in both revisions, whose
    request for the microphone is refused with [err]: the session stays
    idle (the recording flags of the recorder and of the page are what
    they were, so false where the start button was shown), the error
    state is the message of the kind of [err] (device missing, permission
    denied, device busy, other), which is not empty, no host object is created
    (no stream, no audio context, no recorder, so no handler that could
    start a chunk pipeline) and no transcription is requested. *)
Theorem C6_failed_acquisition_stays_idle env rev w err :
  let c := startRecording_of env rev in
  let w' := exec c w in
  In (GetUserMedia (Raises err)) (events_of c w) ->
  isRecording (recorder w') = isRecording (recorder w)
  /\ (shows_start_button w = true -> isRecording (recorder w') = false)
  /\ app_isRecording (app w') = app_isRecording (app w)
  /\ error (recorder w') = Some (message_of_kind (failure_kind err) err)
  /\ message_of_kind (failure_kind err) err <> []
  /\ host w' = host w
  /\ mediaRecorderRef (recorder w') = mediaRecorderRef (recorder w)
  /\ (forall r, handler_of r w' = handler_of r w)
  /\ (forall req ans, ~ In (TranscriptionsCreate req ans) (events_of c w))
  /\ result c w = Returns tt.
Proof.
  cbv zeta. intros Hin.
  pose proof (startRecording_of_failed env rev w err Hin) as Hrun.
  unfold events_of, exec, result. rewrite Hrun. cbn.
  rewrite drop_app_length, <- errorMessage_by_kind.
  repeat split; try reflexivity.
  - unfold shows_start_button. destruct (isRecording (recorder w)); [discriminate|reflexivity].
  - apply errorMessage_classes.
  - intros req ans [H|[H|[]]]; discriminate H.
Qed.

(** ** Pausing, resuming and stopping *)

(** What pausing and stopping leave alone or release: the capture
    stream, the audio context and the published analyser. *)
Lemma togglePause_frame w :
  let w' := exec togglePause w in
  streamRef (recorder w') = streamRef (recorder w)
  /\ audioContextRef (recorder w') = audioContextRef (recorder w)
  /\ mediaRecorderRef (recorder w') = mediaRecorderRef (recorder w)
  /\ isRecording (recorder w') = isRecording (recorder w)
  /\ streams (host w') = streams (host w)
  /\ contexts (host w') = contexts (host w)
  /\ analyser (app w') = analyser (app w)
  /\ apiKeyMissing (recorder w') = apiKeyMissing (recorder w)
  /\ (forall r, is_Some (recorders (host w') !! r) <-> is_Some (recorders (host w) !! r)).
Proof.
  cbv zeta. unfold exec, togglePause. unfold_recorder. cbn.
  destruct (mediaRecorderRef (recorder w)) as [r|] eqn:Hm; cbn;
    [|repeat split; try reflexivity; try assumption; intros; tauto].
  destruct (isPaused (recorder w)); cbn;
    unfold recorder_state; destruct (recorders (host w) !! r) as [mr|] eqn:Hr; cbn;
    try destruct (mr_state mr); cbn; repeat split; try reflexivity; try assumption;
    intros; try tauto; try (rewrite lookup_alter_is_Some in *; tauto).
Qed.

Lemma stopRecording_releases w r s c tracks st :
  mediaRecorderRef (recorder w) = Some r ->
  isRecording (recorder w) = true ->
  streamRef (recorder w) = Some s ->
  audioContextRef (recorder w) = Some c ->
  streams (host w) !! s = Some tracks ->
  contexts (host w) !! c = Some st ->
  let w' := exec stopRecording w in
  streams (host w') !! s = Some (List.map (fun _ => Ended) tracks)
  /\ contexts (host w') !! c = Some Closed
  /\ analyser (app w') = None
  /\ isRecording (recorder w') = false
  /\ app_isRecording (app w') = false
  /\ recorder_state r w' = Inactive.
Proof.
  intros Hr Hrec Hs Hc Htracks Hst. cbv zeta.
  unfold exec, stopRecording. unfold_recorder. cbn.
  rewrite Hr, Hrec. cbn. rewrite Hs. cbn. rewrite Hc. cbn.
  unfold recorder_state. cbn.
  rewrite !lookup_alter_eq, Htracks, Hst. cbn.
  repeat split; try reflexivity.
  destruct (recorders (host w) !! r); reflexivity.
Qed.

(** A call of [startRecording] either leaves the recording flag as it
    was, or has started a session on fresh host objects. *)
Lemma startRecording_of_cases env rev w :
  let w' := exec (startRecording_of env rev) w in
  apiKeyMissing (recorder w') = apiKeyMissing (recorder w) /\
  (isRecording (recorder w') = isRecording (recorder w)
  \/ exists tracks,
       In (GetUserMedia (Returns tracks)) (events_of (startRecording_of env rev) w)
       /\ let s := next_handle (host w) in
          let c := S s in
          let r := S c in
          isRecording (recorder w') = true
          /\ isPaused (recorder w') = false
          /\ app_isRecording (app w') = true
          /\ streamRef (recorder w') = Some s
          /\ audioContextRef (recorder w') = Some c
          /\ mediaRecorderRef (recorder w') = Some r
          /\ streams (host w') !! s = Some tracks
          /\ contexts (host w') !! c = Some Running
          /\ recorders (host w') !! r
             = Some {| mr_stream := s; mr_state := Recording;
                       mr_timeslice := Some CHUNK_INTERVAL;
                       mr_ondataavailable :=
                         Some {| captured_language := language (app w) |} |}
          /\ analyser (app w')
             = Some {| an_context := c; fftSize := 256; an_source := Some s |}).
Proof.
  cbv zeta. unfold events_of, exec.
  assert (Hstart :
    forall w0, trace w0 = trace w -> host w0 = host w -> language (app w0) = language (app w) ->
    let w' := snd (try_catch (acquire_and_record env) (microphone_failed) w0) in
    apiKeyMissing (recorder w') = apiKeyMissing (recorder w0) /\
    (isRecording (recorder w') = isRecording (recorder w0)
    \/ exists tracks,
         In (GetUserMedia (Returns tracks)) (drop (length (trace w)) (trace w'))
         /\ isRecording (recorder w') = true
         /\ isPaused (recorder w') = false
         /\ app_isRecording (app w') = true
         /\ streamRef (recorder w') = Some (next_handle (host w))
         /\ audioContextRef (recorder w') = Some (S (next_handle (host w)))
         /\ mediaRecorderRef (recorder w') = Some (S (S (next_handle (host w))))
         /\ streams (host w') !! next_handle (host w) = Some tracks
         /\ contexts (host w') !! S (next_handle (host w)) = Some Running
         /\ recorders (host w') !! S (S (next_handle (host w)))
            = Some {| mr_stream := next_handle (host w); mr_state := Recording;
                      mr_timeslice := Some CHUNK_INTERVAL;
                      mr_ondataavailable :=
                        Some {| captured_language := language (app w) |} |}
         /\ analyser (app w')
            = Some {| an_context := S (next_handle (host w)); fftSize := 256;
                      an_source := Some (next_handle (host w)) |})).
  { intros w0 Ht Hh Hl. cbv zeta. unfold_recorder. cbn. rewrite Ht, Hh.
    destruct (getUserMedia env (length (trace w))) as [tracks|e]; cbn;
      rewrite ?Ht, ?Hh, ?Hl.
    - split; [reflexivity|]. right. exists tracks. rewrite drop_app_length.
      split; [left; reflexivity|].
      repeat split; try reflexivity.
      + apply lookup_insert_eq.
      + apply lookup_insert_eq.
      + rewrite lookup_alter_eq, lookup_alter_eq, lookup_insert_eq. reflexivity.
    - split; [reflexivity|]. left. reflexivity. }
  destruct rev; cbn [startRecording_of].
  - change (startRecording env w)
      with (try_catch (acquire_and_record env) microphone_failed
              (with_recorder (rec_error None) w)).
    apply (Hstart (with_recorder (rec_error None) w)); reflexivity.
  - unfold startRecording_keycheck, setError, bind, modify, get.
    cbn -[acquire_and_record microphone_failed try_catch].
    destruct (apiKeyMissing (recorder w)) eqn:Hk;
      cbn -[acquire_and_record microphone_failed try_catch].
    + split; [exact Hk|]. left. reflexivity.
    + destruct (Hstart (with_recorder (rec_error None) w) eq_refl eq_refl eq_refl)
        as [H1 H2].
      split; [rewrite H1; exact Hk | exact H2].
Qed.

Lemma stopRecording_cases w :
  let w' := exec stopRecording w in
  apiKeyMissing (recorder w') = apiKeyMissing (recorder w)
  /\ (w' = w \/ isRecording (recorder w') = false).
Proof.
  cbv zeta. unfold exec, stopRecording. unfold_recorder. cbn.
  destruct (mediaRecorderRef (recorder w)) as [r|]; cbn; [|auto].
  destruct (isRecording (recorder w)); cbn; [|auto].
  destruct (streamRef (recorder w)); cbn;
    destruct (audioContextRef (recorder w)); cbn; auto.
Qed.

Lemma ondataavailable_same_session env rev d data w :
  let w' := exec (ondataavailable env rev d data) w in
  isRecording (recorder w') = isRecording (recorder w)
  /\ apiKeyMissing (recorder w') = apiKeyMissing (recorder w)
  /\ mediaRecorderRef (recorder w') = mediaRecorderRef (recorder w)
  /\ streamRef (recorder w') = streamRef (recorder w)
  /\ audioContextRef (recorder w') = audioContextRef (recorder w)
  /\ host w' = host w.
Proof.
  cbv zeta. unfold exec, ondataavailable.
  destruct (0 <? blob_size data)%N; [|cbn; tauto].
  unfold bind at 1, modify. cbn -[processChunk_of].
  destruct (processChunk_run env rev (captured_language d) data
              (with_recorder (rec_chunksRef (fun cs => cs ++ [data])) w))
    as (_ & _ & _ & Hs & _).
  unfold same_session, exec in Hs. cbn -[processChunk_of] in Hs. tauto.
Qed.

(** Every world the page reaches holds its session, and has the
    API-key flag the mount effect gave it. *)
Lemma reachable_invariant env rev w :
  Reachable env rev w ->
  session_held w
  /\ apiKeyMissing (recorder w)
     = match rev with Plain => false | KeyCheck => negb (isApiKeyConfigured env) end.
Proof.
  induction 1 as [|w ev Hreach [IHheld IHkey] Hen].
  - destruct rev; cbn; [split; [intros H; discriminate H | reflexivity]|].
    unfold session_held.
    destruct (isApiKeyConfigured env); cbn; (split; [intros H; discriminate H | reflexivity]).
  - rewrite <- IHkey. clear IHkey.
    destruct ev; cbn [handle_event enabled] in *.
    + destruct (startRecording_of_cases env rev w) as [Hkey [Hsame|Hstarted]];
        cbv zeta in *; (split; [|exact Hkey]).
      * unfold shows_start_button in Hen. intros Hrec. rewrite Hsame in Hrec.
        rewrite Hrec in Hen. discriminate Hen.
      * destruct Hstarted as (tracks & _ & _ & _ & _ & Hs & Hc & Hr & Hst & Hct & Hrt & _).
        intros _.
        exists (S (S (next_handle (host w)))), (next_handle (host w)),
               (S (next_handle (host w))).
        rewrite Hr, Hs, Hc, Hst, Hct, Hrt. eauto 10.
    + destruct (stopRecording_cases w) as [Hkey [Hw|Hoff]]; cbv zeta in *;
        (split; [|exact Hkey]).
      * rewrite Hw. exact IHheld.
      * intros Hrec. congruence.
    + destruct (togglePause_frame w) as (Hs & Hc & Hr & Hrec & Hst & Hct & _ & Hkey & Hrs).
      cbv zeta in *. split; [|exact Hkey].
      intros Hon. rewrite Hrec in Hon.
      destruct (IHheld Hon) as (r & s & c & ? & ? & ? & ? & ? & ?).
      exists r, s, c. rewrite Hs, Hc, Hr, Hst, Hct, Hrs. auto 10.
    + split; [exact IHheld | reflexivity].
    + split; [exact IHheld | reflexivity].
    + unfold exec, bind, get. cbn -[ondataavailable].
      destruct (handler_of r w) as [d|]; [|split; [exact IHheld | reflexivity]].
      destruct (ondataavailable_same_session env rev d data w)
        as (Hrec & Hkey & Hr & Hs & Hc & Hh).
      unfold exec in *. split; [|exact Hkey].
      intros Hon. rewrite Hrec in Hon.
      destruct (IHheld Hon) as (r' & s & c & ? & ? & ? & ? & ? & ?).
      exists r', s, c. rewrite Hr, Hs, Hc, Hh. auto 10.
    + split; [exact IHheld | reflexivity].
Qed.

Lemma all_ended (tracks : list TrackState) :
  Forall (fun t => t = Ended) (List.map (fun _ => Ended) tracks).
Proof. induction tracks as [|t tracks IH]; cbn; constructor; [reflexivity | exact IH]. Qed.

(** C7. Pausing and resuming ([togglePause], whichever way it goes, and
    also when the host refuses) leave the capture stream and the
    analysis handle as they are: the refs, the tracks of every stream,
    every audio context and the published analyser are unchanged. And
    wherever the page shows the stop button, [stopRecording] ends every
    track of the session's stream, closes its audio context and resets
    the published analyser to null. *)
Theorem C7_pause_keeps_and_stop_releases env rev w :
  (let w' := exec togglePause w in
   streamRef (recorder w') = streamRef (recorder w)
   /\ audioContextRef (recorder w') = audioContextRef (recorder w)
   /\ streams (host w') = streams (host w)
   /\ contexts (host w') = contexts (host w)
   /\ analyser (app w') = analyser (app w))
  /\ (Reachable env rev w ->
      shows_stop_button w = true ->
      let w' := exec stopRecording w in
      exists s c tracks,
        streamRef (recorder w) = Some s
        /\ audioContextRef (recorder w) = Some c
        /\ streams (host w') !! s = Some tracks
        /\ Forall (fun t => t = Ended) tracks
        /\ contexts (host w') !! c = Some Closed
        /\ analyser (app w') = None
        /\ isRecording (recorder w') = false).
Proof.
  split.
  - pose proof (togglePause_frame w) as H. cbv zeta in *. tauto.
  - intros Hreach Hshown. unfold shows_stop_button in Hshown.
    destruct (reachable_invariant env rev w Hreach) as [Hheld _].
    destruct (Hheld Hshown) as (r & s & c & Hr & Hs & Hc & _ & [tracks Ht] & [st Hst]).
    destruct (stopRecording_releases w r s c tracks st Hr Hshown Hs Hc Ht Hst)
      as (H1 & H2 & H3 & H4 & _).
    cbv zeta in *. exists s, c, (List.map (fun _ => Ended) tracks).
    repeat split; try assumption.
    apply all_ended.
Qed.

(** ** The API-key check *)

(** C2, as amended. In the revision with the key check, when the
    credential is missing: the mount effect sets [apiKeyMissing] and the
    warning is rendered; in every world the page reaches afterwards the
    flag is still set and the warning is rendered whenever no error
    toast is; and a call of [startRecording] there makes no call that
    leaves the page, so it does not ask for the microphone: it sets the
    error to the message about the key (which takes the place of the
    warning), and leaves the recording flag and the host as they were. *)
Theorem C2_missing_key_blocks_start env :
  isApiKeyConfigured env = false ->
  let w0 := exec (mount_effect env KeyCheck) initial_world in
  (apiKeyMissing (recorder w0) = true /\ shows_api_key_warning w0 = true)
  /\ forall w,
       Reachable env KeyCheck w ->
       apiKeyMissing (recorder w) = true
       /\ (shows_error_toast w = false -> shows_api_key_warning w = true)
       /\ let c := startRecording_of env KeyCheck in
          events_of c w = []
          /\ error (recorder (exec c w))
             = Some (lit "OpenAI API key is not configured. Transcription will not work.")
          /\ shows_error_toast (exec c w) = true
          /\ isRecording (recorder (exec c w)) = isRecording (recorder w)
          /\ host (exec c w) = host w.
Proof.
  intros Hkey. cbv zeta. split.
  - unfold mount_effect. rewrite Hkey. split; reflexivity.
  - intros w Hreach.
    destruct (reachable_invariant env KeyCheck w Hreach) as [_ Hmissing].
    rewrite Hkey in Hmissing. cbn in Hmissing.
    split; [exact Hmissing|]. split.
    + unfold shows_api_key_warning, shows_error_toast. rewrite Hmissing.
      intros ->. reflexivity.
    + unfold events_of, exec, shows_error_toast. cbn [startRecording_of].
      unfold startRecording_keycheck, setError, bind, modify, get.
      cbn -[acquire_and_record microphone_failed try_catch]. rewrite Hmissing.
      cbn. rewrite drop_all. repeat split; reflexivity.
Qed.

(** ** Concrete sessions *)

Lemma C6_failed_acquisition_stays_idle_witness :
  let c := startRecording_of Runs.mic_denied Plain in
  let w := initial_world in
  let w' := exec c w in
  In (GetUserMedia (Raises Runs.denied)) (events_of c w)
  /\ isRecording (recorder w') = isRecording (recorder w)
  /\ (shows_start_button w = true -> isRecording (recorder w') = false)
  /\ app_isRecording (app w') = app_isRecording (app w)
  /\ error (recorder w') = Some (message_of_kind (failure_kind Runs.denied) Runs.denied)
  /\ message_of_kind (failure_kind Runs.denied) Runs.denied <> []
  /\ host w' = host w
  /\ mediaRecorderRef (recorder w') = mediaRecorderRef (recorder w)
  /\ (forall r, handler_of r w' = handler_of r w)
  /\ (forall req ans, ~ In (TranscriptionsCreate req ans) (events_of c w))
  /\ result c w = Returns tt.
Proof.
  cbv zeta.
  assert (H : In (GetUserMedia (Raises Runs.denied))
                (events_of (startRecording_of Runs.mic_denied Plain) initial_world))
    by (vm_compute; auto).
  split; [exact H|].
  exact (C6_failed_acquisition_stays_idle Runs.mic_denied Plain initial_world Runs.denied H).
Defined.

Example denied_message :
  error (recorder (exec (startRecording_of Runs.mic_denied Plain) initial_world))
  = Some (lit "Microphone access denied. Please allow microphone access in your browser settings.").
Proof. vm_compute. reflexivity. Qed.

Lemma C7_pause_keeps_and_stop_releases_witness :
  let w := Runs.started Scenario.env Plain in
  let w' := exec stopRecording w in
  Reachable Scenario.env Plain w
  /\ shows_stop_button w = true
  /\ exists s c tracks,
       streamRef (recorder w) = Some s
       /\ audioContextRef (recorder w) = Some c
       /\ streams (host w') !! s = Some tracks
       /\ Forall (fun t => t = Ended) tracks
       /\ contexts (host w') !! c = Some Closed
       /\ analyser (app w') = None
       /\ isRecording (recorder w') = false.
Proof.
  cbv zeta.
  assert (H1 : Reachable Scenario.env Plain (Runs.started Scenario.env Plain))
    by (apply reach_event; [apply reach_mount | reflexivity]).
  assert (H2 : shows_stop_button (Runs.started Scenario.env Plain) = true)
    by reflexivity.
  split; [exact H1|]. split; [exact H2|].
  exact (proj2 (C7_pause_keeps_and_stop_releases Scenario.env Plain
                  (Runs.started Scenario.env Plain)) H1 H2).
Defined.

Lemma C10_id_is_clock_reading_witness :
  let env := Runs.frozen_clock in
  let w := initial_world in
  let w1 := exec (handleNewTranscript env (lit "Hello.") (lit "Bonjour.")) w in
  let w2 := exec (handleNewTranscript env (lit "World.") (lit "Monde.")) w1 in
  Date_now env (clock_reads w1) = Date_now env (clock_reads w)
  /\ exists item1 item2,
       transcripts (app w2) = transcripts (app w) ++ [item1; item2]
       /\ id item1 = id item2
       /\ ~ NoDup (List.map id (transcripts (app w2))).
Proof.
  cbv zeta. split; [reflexivity|].
  apply (proj2 (C10_id_is_clock_reading Runs.frozen_clock (lit "Hello.") (lit "Bonjour.")
                  (lit "World.") (lit "Monde.") initial_world)).
  reflexivity.
Defined.

(** With the credential missing, the mount effect has set the flag, and
    the start button asks nobody for the microphone: the claim that a
    start still requests it fails here. *)
Lemma C2_start_is_blocked_counterexample :
  let env := Runs.no_key in
  let w0 := exec (mount_effect env KeyCheck) initial_world in
  isApiKeyConfigured env = false
  /\ apiKeyMissing (recorder w0) = true
  /\ ~ (exists answer,
          In (GetUserMedia answer) (events_of (startRecording_of env KeyCheck) w0)).
Proof.
  cbv zeta. split; [reflexivity|]. split; [reflexivity|].
  intros [answer H]. vm_compute in H. exact H.
Qed.

Lemma C2_missing_key_blocks_start_witness :
  let env := Runs.no_key in
  let w0 := exec (mount_effect env KeyCheck) initial_world in
  let c := startRecording_of env KeyCheck in
  isApiKeyConfigured env = false
  /\ Reachable env KeyCheck w0
  /\ apiKeyMissing (recorder w0) = true
  /\ shows_api_key_warning w0 = true
  /\ events_of c w0 = []
  /\ error (recorder (exec c w0))
     = Some (lit "OpenAI API key is not configured. Transcription will not work.")
  /\ isRecording (recorder (exec c w0)) = isRecording (recorder w0)
  /\ host (exec c w0) = host w0.
Proof.
  cbv zeta.
  assert (Hkey : isApiKeyConfigured Runs.no_key = false) by reflexivity.
  assert (Hreach : Reachable Runs.no_key KeyCheck
                     (exec (mount_effect Runs.no_key KeyCheck) initial_world))
    by apply reach_mount.
  destruct (C2_missing_key_blocks_start Runs.no_key Hkey) as [[Hflag Hwarn] Hall].
  destruct (Hall _ Hreach) as (_ & _ & Hev & Herr & _ & Hrec & Hhost).
  repeat split; assumption.
Defined.

(** ** The visualizer *)

Module VisualizerFacts.

Import Visualizer.
Local Open Scope float_scope.

(** The radius of a dot in a frame, as [draw] computes it. *)
Lemma currentRadius_formula dataArray bufferLength dot :
  currentRadius dataArray bufferLength dot
  = baseR dot * scale dataArray bufferLength
    + (of_int (freqValue dataArray bufferLength dot) / 255) * 40
  /\ scale dataArray bufferLength = 1 + (average dataArray bufferLength / 128) * 1.5
  /\ average dataArray bufferLength = sum dataArray bufferLength / of_int bufferLength.
Proof. repeat split. Qed.

(** A dot whose angle maps to an index of the array gets the energy of
    that bin. *)
Lemma freqValue_of_bin dataArray bufferLength dot k v :
  binIndex bufferLength dot = Some (Z.of_nat k) ->
  dataArray !! k = Some v ->
  freqValue dataArray bufferLength dot = v.
Proof.
  unfold freqValue, element_or_0. intros -> Hv.
  destruct (Z.of_nat k <? 0)%Z eqn:E; [apply Z.ltb_lt in E; lia|].
  rewrite Nat2Z.id, Hv. reflexivity.
Qed.

(** A dot whose angle maps to a negative index gets no bin: the energy
    it reads is zero, whatever the bins hold. *)
Lemma freqValue_negative_index dataArray bufferLength dot k :
  binIndex bufferLength dot = Some k ->
  (k < 0)%Z ->
  freqValue dataArray bufferLength dot = 0%Z.
Proof.
  unfold freqValue, element_or_0. intros -> Hk.
  destruct (k <? 0)%Z eqn:E; [reflexivity | apply Z.ltb_ge in E; lia].
Qed.

Example fresh_dot_reads_its_bin cos sin :
  binIndex 128 (slow_dot cos sin) = Some 64%Z
  /\ freqValue loud 128 (slow_dot cos sin) = 255%Z
  /\ currentRadius loud 128 (slow_dot cos sin) = 50 * 0x1.fe8p+1 + 40.
Proof. vm_compute. repeat split. Qed.

(** The dots of a frame do not depend on one another. *)
Lemma animate_map cos sin bufferLength frames dots :
  animate cos sin bufferLength frames dots
  = List.map (animate_dot cos sin bufferLength frames) dots.
Proof.
  revert dots. induction frames as [|[now dataArray] frames IH]; intros dots; cbn.
  - symmetry. apply List.map_id.
  - rewrite IH. unfold draw. cbn [fst]. rewrite !List.map_map. reflexivity.
Qed.

Lemma new_dots_random_0 cos sin :
  new_dots random_0 cos sin = repeat (slow_dot cos sin) numDots.
Proof. reflexivity. Qed.

(** C8. The radius of every dot is [baseR * scale + (freqValue / 255) * 40]
    with [scale = 1 + (average / 128) * 1.5], but [freqValue] is not the
    energy of a bin for every dot. The 150 dots created when
    [Math.random()] gives 0 start at angle 0 with speed -0.01; after 315
    frames their angle is below minus pi and their index is -1, which is
    no bin of the array: with every one of the 128 bins at 255, so that
    any bin would contribute 40, their frequency contribution is 0 and
    their radius is [baseR * scale] alone. *)
Theorem C8_drifted_dot_reads_no_bin cos sin :
  let frames := repeat (0%Z, loud) 315 in
  let dots := animate cos sin 128 frames (new_dots random_0 cos sin) in
  length dots = numDots
  /\ Forall (fun dot =>
              (angle dot <? - Math_PI) = true
              /\ binIndex 128 dot = Some (-1)%Z
              /\ freqValue loud 128 dot = 0%Z
              /\ currentRadius loud 128 dot = baseR dot * scale loud 128 + 0) dots
  /\ (forall k v, loud !! k = Some v -> (of_int v / 255) * 40 = 40)
  /\ scale loud 128 = 1 + (255 / 128) * 1.5.
Proof.
  cbv zeta. rewrite animate_map, new_dots_random_0.
  split; [rewrite length_map; apply repeat_length|]. split.
  - apply List.Forall_map, List.Forall_forall.
    intros dot Hdot. apply repeat_spec in Hdot. subst dot.
    vm_compute. repeat split.
  - split; [|vm_compute; reflexivity].
    intros k v Hv. unfold loud in Hv.
    apply list_elem_of_lookup_2, list_elem_of_In, repeat_spec in Hv. subst v.
    vm_compute. reflexivity.
Qed.

End VisualizerFacts.

(* ===================================================================== *)
(** * Further properties of the capture pipeline *)
(* ===================================================================== *)

(** ** Everything a chunk's pipeline changes *)

(** [error.message?.includes('API') || ...('401') || ...('403')] *)
Lemma processChunk_effects env rev language chunk w :
  let c := processChunk_of env rev language chunk in
  let evs := events_of c w in
  let w' := exec c w in
  exists ans1,
    transcription_calls evs
      = [ (transcription_request (speech_file chunk) language, ans1) ]
    /\ host w' = host w
    /\ recorder w'
       = match rev, ans1 with
         | Plain, _ => recorder w
         | KeyCheck, Returns _ => rec_processingStatus None (recorder w)
         | KeyCheck, Raises e =>
             if api_like e
             then rec_error (Some api_error_message) (rec_processingStatus None (recorder w))
             else rec_processingStatus None (recorder w)
         end
    /\ match ans1 with
       | Raises _ => app w' = app w
       | Returns v =>
           if no_transcript v then app w' = app w
           else
             exists ans2 ans3,
               let corrected := content_or ans2 (as_string v) in
               let translated := content_or ans3 (lit "") in
               chat_calls evs
                 = [ (correction_request (as_string v), ans2);
                     (translation_request corrected (lit "en"), ans3) ]
               /\ app w'
                  = app_timers (fun ts => ts ++ [(6000, translated)])
                      (app_caption (fun _ => translated)
                         (app_transcripts (fun prev => prev ++
                            [ {| id := Date_now env (clock_reads w);
                                 original := corrected;
                                 translation := translated;
                                 timestamp :=
                                   toLocaleTimeString env
                                     (Date_now env (S (clock_reads w))) |} ])
                            (app w)))
       end.
Proof.
  cbv zeta. unfold events_of, exec, api_like.
  destruct rev; cbn [processChunk_of].
  - unfold processChunk, bind, try_catch.
    rewrite transcribeAudio_run. name_stage1 ans1.
    exists ans1. destruct ans1 as [v|e].
    + destruct (no_transcript v) eqn:Hv.
      * cbn. rewrite drop_app_length. cbn. repeat split; reflexivity.
      * rewrite correctTranscript_run. name_chat ans2.
        rewrite translateText_run. name_chat ans3.
        unfold onNewTranscript. rewrite handleNewTranscript_run. cbn.
        rewrite <- !app_assoc, drop_app_length. clearbody ans2 ans3.
        split; [destruct ans2 as [[[|? ?]]|?], ans3 as [[[|? ?]]|?]; reflexivity|].
        split; [reflexivity|]. split; [reflexivity|].
        exists ans2, ans3. split; [|reflexivity].
        destruct ans2 as [[[|? ?]]|?], ans3 as [[[|? ?]]|?]; reflexivity.
    + unfold_m. cbn. rewrite <- !app_assoc, drop_app_length. cbn.
      repeat split; reflexivity.
  - unfold processChunk_keycheck, bind, try_catch, setProcessingStatus, setError.
    unfold_m. cbn -[transcribeAudio correctTranscript translateText onNewTranscript].
    rewrite transcribeAudio_run. name_stage1 ans1.
    exists ans1. destruct ans1 as [v|e].
    + cbn -[correctTranscript translateText onNewTranscript].
      destruct (no_transcript v) eqn:Hv.
      * cbn. rewrite <- !app_assoc, drop_app_length. cbn. repeat split; reflexivity.
      * cbn -[correctTranscript translateText onNewTranscript].
        rewrite correctTranscript_run. name_chat ans2.
        cbn -[translateText onNewTranscript].
        rewrite translateText_run. name_chat ans3.
        unfold onNewTranscript. rewrite handleNewTranscript_run. cbn.
        rewrite <- !app_assoc, drop_app_length. clearbody ans2 ans3.
        split; [destruct ans2 as [[[|? ?]]|?], ans3 as [[[|? ?]]|?]; reflexivity|].
        split; [reflexivity|]. split; [reflexivity|].
        exists ans2, ans3. split; [|reflexivity].
        destruct ans2 as [[[|? ?]]|?], ans3 as [[[|? ?]]|?]; reflexivity.
    + cbn.
      destruct (message_includes e (lit "API") || message_includes e (lit "401")
                || message_includes e (lit "403"));
        cbn; rewrite <- !app_assoc, drop_app_length; cbn; repeat split; reflexivity.
Qed.

(** X1. A chunk that every stage answers: when stage 1 hears a string
    that is not blank, stage 2 returns a content that is not empty and
    stage 3 returns a content that is not empty, the log gains exactly one
    item, whose original is the content of stage 2 and whose translation
    is the content of stage 3; the floating caption becomes that
    translation, and a timer of 6000 ms is set to clear it. *)
Theorem chunk_with_three_answers env rev language chunk w req s c2 c3 corrected translated rest2 rest3 :
  let c := processChunk_of env rev language chunk in
  let w' := exec c w in
  In (TranscriptionsCreate req (Returns (VString s))) (events_of c w) ->
  forallb is_white_space s = false ->
  In (ChatCompletionsCreate (correction_request s) (Returns c2)) (events_of c w) ->
  choices c2 = {| message_content := Some corrected |} :: rest2 ->
  corrected <> [] ->
  In (ChatCompletionsCreate (translation_request corrected (lit "en")) (Returns c3))
     (events_of c w) ->
  choices c3 = {| message_content := Some translated |} :: rest3 ->
  translated <> [] ->
  exists item,
    transcripts (app w') = transcripts (app w) ++ [item]
    /\ original item = corrected
    /\ translation item = translated
    /\ id item = Date_now env (clock_reads w)
    /\ latestCaption (app w') = translated
    /\ timers (app w') = timers (app w) ++ [(6000, translated)].
Proof.
  cbv zeta. intros H1 Hs H2 Hc2 Hcorr H3 Hc3 Htrans.
  destruct (processChunk_effects env rev language chunk w)
    as (ans1 & Hcalls & _ & _ & Hcase).
  cbv zeta in *.
  apply in_transcription_calls in H1. rewrite Hcalls in H1.
  destruct H1 as [H1|[]]. pair_eq H1 Hreq Hans. subst ans1.
  assert (Hv : no_transcript (VString s) = false)
    by (apply no_transcript_false; eauto).
  rewrite Hv in Hcase. destruct Hcase as (a2 & a3 & Hchat & Happ). cbn in *.
  apply in_chat_calls in H2, H3. rewrite Hchat in H2, H3.
  assert (Ha2 : a2 = Returns c2).
  { destruct H2 as [H2|[H2|[]]]; pair_eq H2 Hr Ha; [congruence|].
    symmetry in Hr. destruct (correction_is_not_translation _ _ _ Hr). }
  subst a2.
  assert (Hcor : content_or (Returns c2) s = corrected).
  { cbn. rewrite Hc2. cbn. destruct (bool_decide (corrected = [])) eqn:E; [|reflexivity].
    apply bool_decide_eq_true in E. contradiction. }
  rewrite Hcor in *.
  assert (Ha3 : a3 = Returns c3).
  { destruct H3 as [H3|[H3|[]]]; pair_eq H3 Hr Ha; [|congruence].
    destruct (correction_is_not_translation _ _ _ Hr). }
  subst a3.
  assert (Htr : content_or (Returns c3) (lit "") = translated).
  { cbn. rewrite Hc3. cbn. destruct (bool_decide (translated = [])) eqn:E; [|reflexivity].
    apply bool_decide_eq_true in E. contradiction. }
  rewrite Htr in *.
  rewrite Happ. eexists. cbn. repeat split; reflexivity.
Qed.

Lemma chunk_with_three_answers_witness :
  let c := processChunk_of Scenario.env KeyCheck Runs.korean Scenario.chunk in
  let w := initial_world in
  let w' := exec c w in
  exists item,
    transcripts (app w') = transcripts (app w) ++ [item]
    /\ original item = lit "Hello world."
    /\ translation item = lit "Bonjour le monde."
    /\ id item = Date_now Scenario.env (clock_reads w)
    /\ latestCaption (app w') = lit "Bonjour le monde."
    /\ timers (app w') = timers (app w) ++ [(6000, lit "Bonjour le monde.")].
Proof.
  cbv zeta.
  apply (chunk_with_three_answers Scenario.env KeyCheck Runs.korean Scenario.chunk
           initial_world Runs.request (lit "hello world")
           (Scenario.completion_of "Hello world.")
           (Scenario.completion_of "Bonjour le monde.")
           (lit "Hello world.") (lit "Bonjour le monde.") [] []).
  - vm_compute. auto 10.
  - reflexivity.
  - vm_compute. auto 10.
  - reflexivity.
  - discriminate.
  - vm_compute. auto 20.
  - reflexivity.
  - discriminate.
Defined.

(** X2. What a chunk changes of the recorder's state. In the revision
    with the key check the processing status is null after every chunk,
    whatever the stages answered, and the error is set, to the message
    about the API key, exactly when stage 1 raised an error whose message
    contains API, 401 or 403; otherwise it is what it was. In the other
    revision a chunk changes nothing of the recorder's state. *)
Theorem chunk_status_and_error env language chunk w :
  let w1 := exec (processChunk_of env KeyCheck language chunk) w in
  let w0 := exec (processChunk_of env Plain language chunk) w in
  processingStatus (recorder w1) = None
  /\ (error (recorder w1) = error (recorder w)
      \/ (error (recorder w1) = Some api_error_message
          /\ exists req e,
               In (TranscriptionsCreate req (Raises e))
                  (events_of (processChunk_of env KeyCheck language chunk) w)
               /\ api_like e = true))
  /\ (forall req e,
        In (TranscriptionsCreate req (Raises e))
           (events_of (processChunk_of env KeyCheck language chunk) w) ->
        api_like e = true ->
        error (recorder w1) = Some api_error_message)
  /\ recorder w0 = recorder w.
Proof.
  cbv zeta.
  destruct (processChunk_effects env KeyCheck language chunk w)
    as (ans1 & Hcalls & _ & Hrec & _).
  destruct (processChunk_effects env Plain language chunk w)
    as (ans0 & _ & _ & Hrec0 & _).
  cbv zeta in *. rewrite Hrec, Hrec0. clear Hrec Hrec0.
  split; [|split; [|split]].
  - destruct ans1 as [v|e]; [reflexivity|]. destruct (api_like e); reflexivity.
  - destruct ans1 as [v|e]; [left; reflexivity|].
    destruct (api_like e) eqn:E; [right | left; reflexivity].
    split; [reflexivity|]. eexists _, e. split; [|exact E].
    apply in_transcription_calls. rewrite Hcalls. left. reflexivity.
  - intros req e Hin Hapi. apply in_transcription_calls in Hin. rewrite Hcalls in Hin.
    destruct Hin as [Hin|[]]. pair_eq Hin Hr Ha. subst ans1. rewrite Hapi. reflexivity.
  - reflexivity.
Qed.

Lemma chunk_status_and_error_witness :
  let env := Scenario.answering (Returns [Live])
               (Raises {| name := Some (lit "AuthenticationError");
                          message := Some (lit "401 Incorrect API key provided") |})
               Runs.nothing Runs.nothing true in
  let c := processChunk_of env KeyCheck Runs.korean Scenario.chunk in
  error (recorder (exec c initial_world)) = Some api_error_message.
Proof.
  cbv zeta.
  eapply (proj1 (proj2 (proj2 (chunk_status_and_error _ Runs.korean Scenario.chunk
                                 initial_world)))).
  - vm_compute. auto 10.
  - reflexivity.
Defined.

(** ** Everything the buttons change *)

(** A click on start either starts a session on three fresh host
    objects, or changes nothing but the error and the trace. *)
Lemma startRecording_of_effects env rev w :
  let w' := exec (startRecording_of env rev) w in
  let s := next_handle (host w) in
  let c := S s in
  let r := S c in
  (exists tracks,
     trace w' = trace w ++ [GetUserMedia (Returns tracks)]
     /\ app w' = app_recording true
                   (app_analyser
                      (Some {| an_context := c; fftSize := 256; an_source := Some s |})
                      (app w))
     /\ recorder w'
        = rec_isPaused false
            (rec_isRecording true
               (rec_chunksRef (fun _ => [])
                  (rec_mediaRecorderRef (Some r)
                     (rec_audioContextRef (Some c)
                        (rec_streamRef (Some s) (rec_error None (recorder w)))))))
     /\ next_handle (host w') = S r
     /\ streams (host w') = <[s := tracks]> (streams (host w))
     /\ contexts (host w') = <[c := Running]> (contexts (host w))
     /\ recorders (host w') !! r
        = Some {| mr_stream := s; mr_state := Recording;
                  mr_timeslice := Some CHUNK_INTERVAL;
                  mr_ondataavailable :=
                    Some {| captured_language := language (app w) |} |}
     /\ (forall r', r' <> r -> recorders (host w') !! r' = recorders (host w) !! r'))
  \/ (app w' = app w
      /\ host w' = host w
      /\ (exists e, recorder w' = rec_error e (recorder w))
      /\ (forall req ans,
            ~ In (TranscriptionsCreate req ans) (events_of (startRecording_of env rev) w))
      /\ forall tracks,
           ~ In (GetUserMedia (Returns tracks)) (events_of (startRecording_of env rev) w)).
Proof.
  cbv zeta. unfold events_of, exec.
  assert (Hstart :
    let w0 := with_recorder (rec_error None) w in
    let w' := snd (try_catch (acquire_and_record env) (microphone_failed) w0) in
    (exists tracks,
       trace w' = trace w ++ [GetUserMedia (Returns tracks)]
       /\ app w' = app_recording true
                     (app_analyser
                        (Some {| an_context := S (next_handle (host w)); fftSize := 256;
                                 an_source := Some (next_handle (host w)) |})
                        (app w))
       /\ recorder w'
          = rec_isPaused false
              (rec_isRecording true
                 (rec_chunksRef (fun _ => [])
                    (rec_mediaRecorderRef (Some (S (S (next_handle (host w)))))
                       (rec_audioContextRef (Some (S (next_handle (host w))))
                          (rec_streamRef (Some (next_handle (host w)))
                             (rec_error None (recorder w)))))))
       /\ next_handle (host w') = S (S (S (next_handle (host w))))
       /\ streams (host w') = <[next_handle (host w) := tracks]> (streams (host w))
       /\ contexts (host w') = <[S (next_handle (host w)) := Running]> (contexts (host w))
       /\ recorders (host w') !! S (S (next_handle (host w)))
          = Some {| mr_stream := next_handle (host w); mr_state := Recording;
                    mr_timeslice := Some CHUNK_INTERVAL;
                    mr_ondataavailable :=
                      Some {| captured_language := language (app w) |} |}
       /\ (forall r', r' <> S (S (next_handle (host w))) ->
           recorders (host w') !! r' = recorders (host w) !! r'))
    \/ (app w' = app w
        /\ host w' = host w
        /\ (exists e, recorder w' = rec_error e (recorder w))
        /\ (forall req ans,
              ~ In (TranscriptionsCreate req ans) (drop (length (trace w)) (trace w')))
        /\ forall tracks,
             ~ In (GetUserMedia (Returns tracks)) (drop (length (trace w)) (trace w')))).
  { cbv zeta. unfold_recorder. cbn.
    destruct (getUserMedia env (length (trace w))) as [tracks|e]; cbn.
    - left. exists tracks. repeat split; try reflexivity.
      + rewrite !lookup_alter_eq, lookup_insert_eq. reflexivity.
      + intros r' Hr'. rewrite !lookup_alter_ne, lookup_insert_ne by congruence.
        reflexivity.
    - right. repeat split; try reflexivity.
      + eexists. unfold_updates. cbn. reflexivity.
      + rewrite <- app_assoc, drop_app_length. intros req ans [H|[H|[]]]; discriminate H.
      + rewrite <- app_assoc, drop_app_length. intros tracks [H|[H|[]]]; discriminate H. }
  destruct rev; cbn [startRecording_of].
  - change (startRecording env w)
      with (try_catch (acquire_and_record env) microphone_failed
              (with_recorder (rec_error None) w)).
    exact Hstart.
  - unfold startRecording_keycheck, setError, bind, modify, get.
    cbn -[acquire_and_record microphone_failed try_catch].
    destruct (apiKeyMissing (recorder w)) eqn:Hk;
      cbn -[acquire_and_record microphone_failed try_catch].
    + right. repeat split; try reflexivity.
      * eexists. unfold_updates. cbn. reflexivity.
      * rewrite drop_all. intros req ans [].
      * rewrite drop_all. intros tracks [].
    + exact Hstart.
Qed.

(** A click on stop, where a recorder is held and the page is recording,
    stops the recorder, ends the tracks, closes the context and resets
    the flags and the analyser; anywhere else it changes nothing. *)
Lemma stopRecording_effects w :
  let w' := exec stopRecording w in
  match mediaRecorderRef (recorder w), isRecording (recorder w) with
  | Some r, true =>
      app w' = app_recording false (app_analyser None (app w))
      /\ recorder w' = rec_isPaused false (rec_isRecording false (recorder w))
      /\ next_handle (host w') = next_handle (host w)
      /\ recorders (host w') = alter (mr_with_state Inactive) r (recorders (host w))
      /\ streams (host w')
         = match streamRef (recorder w) with
           | Some s => alter (List.map (fun _ => Ended)) s (streams (host w))
           | None => streams (host w)
           end
      /\ contexts (host w')
         = match audioContextRef (recorder w) with
           | Some c => alter (fun _ => Closed) c (contexts (host w))
           | None => contexts (host w)
           end
      /\ trace w' = trace w
  | _, _ => w' = w
  end.
Proof.
  cbv zeta. unfold exec, stopRecording. unfold_recorder. cbn.
  destruct (mediaRecorderRef (recorder w)) as [r|]; cbn; [|reflexivity].
  destruct (isRecording (recorder w)) eqn:Hrec; cbn; [|destruct (isRecording (recorder w)); reflexivity].
  destruct (streamRef (recorder w)); cbn;
    destruct (audioContextRef (recorder w)); cbn; repeat split; reflexivity.
Qed.

(** A click on pause or resume: on a recorder that is not inactive it
    flips the recorder and the flag together; on an inactive recorder the
    host raises and nothing changes. *)
Lemma togglePause_effects w r :
  mediaRecorderRef (recorder w) = Some r ->
  let w' := exec togglePause w in
  match recorder_state r w with
  | Inactive => w' = w /\ result togglePause w = Raises InvalidStateError
  | _ =>
      result togglePause w = Returns tt
      /\ app w' = app w
      /\ recorder w' = rec_isPaused (negb (isPaused (recorder w))) (recorder w)
      /\ next_handle (host w') = next_handle (host w)
      /\ streams (host w') = streams (host w)
      /\ contexts (host w') = contexts (host w)
      /\ recorders (host w')
         = alter (mr_with_state (if isPaused (recorder w) then Recording else Paused)) r
             (recorders (host w))
      /\ trace w' = trace w
  end.
Proof.
  intros Hr. cbv zeta. unfold exec, result, togglePause. unfold_recorder. cbn.
  rewrite Hr. cbn.
  destruct (isPaused (recorder w)); cbn;
    destruct (recorder_state r w); cbn; repeat split; reflexivity.
Qed.

Lemma ondataavailable_effects env rev d data w :
  let w' := exec (ondataavailable env rev d data) w in
  host w' = host w
  /\ isRecording (recorder w') = isRecording (recorder w)
  /\ isPaused (recorder w') = isPaused (recorder w)
  /\ apiKeyMissing (recorder w') = apiKeyMissing (recorder w)
  /\ mediaRecorderRef (recorder w') = mediaRecorderRef (recorder w)
  /\ streamRef (recorder w') = streamRef (recorder w)
  /\ audioContextRef (recorder w') = audioContextRef (recorder w)
  /\ chunksRef (recorder w')
     = (if (0 <? blob_size data)%N then chunksRef (recorder w) ++ [data]
        else chunksRef (recorder w))
  /\ analyser (app w') = analyser (app w)
  /\ app_isRecording (app w') = app_isRecording (app w)
  /\ language (app w') = language (app w)
  /\ (transcripts (app w') = transcripts (app w)
      \/ exists item, transcripts (app w') = transcripts (app w) ++ [item]).
Proof.
  cbv zeta. unfold exec, ondataavailable.
  destruct (0 <? blob_size data)%N; [|cbn; tauto].
  unfold bind at 1, modify. cbn -[processChunk_of].
  destruct (processChunk_effects env rev (captured_language d) data
              (with_recorder (rec_chunksRef (fun cs => cs ++ [data])) w))
    as (ans1 & _ & Hh & Hr & Ha).
  unfold exec in *. cbv zeta in *. rewrite Hh, Hr.
  assert (Happ : analyser (app (processChunk_of env rev (captured_language d) data
                   (with_recorder (rec_chunksRef (fun cs => cs ++ [data])) w)).2)
                 = analyser (app w)
               /\ app_isRecording (app (processChunk_of env rev (captured_language d) data
                   (with_recorder (rec_chunksRef (fun cs => cs ++ [data])) w)).2)
                 = app_isRecording (app w)
               /\ language (app (processChunk_of env rev (captured_language d) data
                   (with_recorder (rec_chunksRef (fun cs => cs ++ [data])) w)).2)
                 = language (app w)
               /\ (transcripts (app (processChunk_of env rev (captured_language d) data
                   (with_recorder (rec_chunksRef (fun cs => cs ++ [data])) w)).2)
                   = transcripts (app w)
                   \/ exists item,
                        transcripts (app (processChunk_of env rev (captured_language d) data
                          (with_recorder (rec_chunksRef (fun cs => cs ++ [data])) w)).2)
                        = transcripts (app w) ++ [item])).
  { destruct ans1 as [v|e]; [|rewrite Ha; cbn; tauto].
    destruct (no_transcript v); [rewrite Ha; cbn; tauto|].
    destruct Ha as (a2 & a3 & _ & Ha). rewrite Ha. cbn.
    repeat split; try reflexivity. right. eexists. reflexivity. }
  destruct Happ as (H1 & H2 & H3 & H4).
  split; [reflexivity|].
  destruct rev; [|destruct ans1 as [v|e]; [|destruct (api_like e)]]; cbn; tauto.
Qed.



(** ** Sessions *)







(** ** Data events *)

Lemma ondataavailable_calls env rev d data w :
  (0 < blob_size data)%N ->
  exists ans,
    transcription_calls (events_of (ondataavailable env rev d data) w)
    = [ (transcription_request (speech_file data) (captured_language d), ans) ].
Proof.
  intros Hsize. apply N.ltb_lt in Hsize.
  unfold events_of, exec, ondataavailable. rewrite Hsize.
  unfold bind at 1, modify. cbn -[processChunk_of].
  destruct (processChunk_effects env rev (captured_language d) data
              (with_recorder (rec_chunksRef (fun cs => cs ++ [data])) w))
    as (ans1 & Hcalls & _).
  exists ans1. exact Hcalls.
Qed.

(** X6. A data event of the recorder: an empty segment is ignored (the
    world is left as it is: nothing is stored, nothing is sent); a segment
    that is not empty is appended to the chunks the recorder keeps and
    starts one pipeline, whose single transcription request carries that
    segment alone as the file speech.webm of type audio/webm, with the
    language the handler caught. *)
Theorem data_event_stores_and_sends env rev d data w :
  let c := ondataavailable env rev d data in
  (blob_size data = 0%N -> exec c w = w /\ result c w = Returns tt)
  /\ ((0 < blob_size data)%N ->
      chunksRef (recorder (exec c w)) = chunksRef (recorder w) ++ [data]
      /\ exists ans,
           transcription_calls (events_of c w)
           = [ ({| tr_file := {| file_parts := [data];
                                 file_name := lit "speech.webm";
                                 file_type := lit "audio/webm" |};
                   tr_model := lit "whisper-1";
                   tr_language := captured_language d;
                   tr_response_format := lit "text";
                   tr_prompt := lit "The following conversation is a lecture about the recent developments around OpenAI, GPT-4.5 and the future of AI." |},
                ans) ]).
Proof.
  cbv zeta. split.
  - intros Hz. unfold exec, result, ondataavailable. rewrite Hz. split; reflexivity.
  - intros Hsize. split.
    + destruct (ondataavailable_effects env rev d data w)
        as (_ & _ & _ & _ & _ & _ & _ & Hch & _).
      cbv zeta in Hch. rewrite Hch. apply N.ltb_lt in Hsize. rewrite Hsize. reflexivity.
    + destruct (ondataavailable_calls env rev d data w Hsize) as [ans Hans].
      exists ans. exact Hans.
Qed.

Lemma data_event_stores_and_sends_witness :
  let d := {| captured_language := Runs.korean |} in
  let c := ondataavailable Scenario.env Plain d Scenario.chunk in
  (0 < blob_size Scenario.chunk)%N
  /\ chunksRef (recorder (exec c initial_world)) = [Scenario.chunk]
  /\ exists ans,
       transcription_calls (events_of c initial_world)
       = [ ({| tr_file := {| file_parts := [Scenario.chunk];
                             file_name := lit "speech.webm";
                             file_type := lit "audio/webm" |};
               tr_model := lit "whisper-1";
               tr_language := Runs.korean;
               tr_response_format := lit "text";
               tr_prompt := lit "The following conversation is a lecture about the recent developments around OpenAI, GPT-4.5 and the future of AI." |},
            ans) ].
Proof.
  cbv zeta.
  assert (H : (0 < blob_size Scenario.chunk)%N) by reflexivity.
  split; [exact H|].
  exact (proj2 (data_event_stores_and_sends Scenario.env Plain
                  {| captured_language := Runs.korean |} Scenario.chunk initial_world) H).
Defined.

(** X7. The language of a session is the one selected when it was
    started: after a start that succeeds, whatever language is selected
    afterwards, a data event of the session's recorder is enabled and its
    transcription request carries the language that was selected at the
    click on start, not the one selected now. *)
Theorem chunks_keep_language_of_start env rev w later data :
  isRecording (recorder w) = false ->
  let w1 := exec (handle_event env rev ClickStart) w in
  let w2 := exec (handle_event env rev (SetLanguage later)) w1 in
  isRecording (recorder w1) = true ->
  (0 < blob_size data)%N ->
  exists r,
    mediaRecorderRef (recorder w2) = Some r
    /\ language (app w2) = later
    /\ enabled (DataAvailable r data) w2 = true
    /\ exists ans,
         transcription_calls (events_of (handle_event env rev (DataAvailable r data)) w2)
         = [ (transcription_request (speech_file data) (language (app w)), ans) ].
Proof.
  intros Hoff. cbv zeta. cbn [handle_event]. intros Hon Hsize.
  destruct (startRecording_of_effects env rev w) as [Hs|Hf]; cbv zeta in *.
  - destruct Hs as (tracks & _ & _ & Hr & _ & _ & _ & Hrr & _).
    exists (S (S (next_handle (host w)))).
    assert (Hh : handler_of (S (S (next_handle (host w))))
                   (exec (modify (with_app (app_language later)))
                      (exec (startRecording_of env rev) w))
                 = Some {| captured_language := language (app w) |}).
    { unfold handler_of. cbn. rewrite Hrr. reflexivity. }
    split; [cbn; rewrite Hr; reflexivity|]. split; [reflexivity|].
    split; [cbn [enabled]; rewrite Hh; apply bool_decide_eq_true; eauto|].
    revert Hh.
    generalize (exec (modify (with_app (app_language later)))
                  (exec (startRecording_of env rev) w)).
    intros W2 Hh.
    destruct (ondataavailable_calls env rev {| captured_language := language (app w) |}
                data W2 Hsize) as [ans Hans].
    exists ans. cbn [captured_language] in Hans. rewrite <- Hans.
    unfold events_of, exec, bind, get. cbn -[ondataavailable]. rewrite Hh. reflexivity.
  - destruct Hf as (_ & _ & [e He] & _ & _). rewrite He in Hon. cbn in Hon. congruence.
Qed.

Lemma chunks_keep_language_of_start_witness :
  let env := Scenario.env in
  let w := exec (mount_effect env Plain) initial_world in
  let w1 := exec (handle_event env Plain ClickStart) w in
  let w2 := exec (handle_event env Plain (SetLanguage (lit "fr"))) w1 in
  isRecording (recorder w) = false
  /\ isRecording (recorder w1) = true
  /\ (0 < blob_size Scenario.chunk)%N
  /\ exists r,
       mediaRecorderRef (recorder w2) = Some r
       /\ language (app w2) = lit "fr"
       /\ enabled (DataAvailable r Scenario.chunk) w2 = true
       /\ exists ans,
            transcription_calls
              (events_of (handle_event env Plain (DataAvailable r Scenario.chunk)) w2)
            = [ (transcription_request (speech_file Scenario.chunk) (language (app w)), ans) ].
Proof.
  cbv zeta.
  assert (H1 : isRecording (recorder (exec (mount_effect Scenario.env Plain) initial_world))
               = false) by reflexivity.
  assert (H2 : isRecording (recorder (exec (handle_event Scenario.env Plain ClickStart)
                 (exec (mount_effect Scenario.env Plain) initial_world))) = true)
    by reflexivity.
  assert (H3 : (0 < blob_size Scenario.chunk)%N) by reflexivity.
  split; [exact H1|]. split; [exact H2|]. split; [exact H3|].
  exact (chunks_keep_language_of_start Scenario.env Plain _ (lit "fr") Scenario.chunk
           H1 H2 H3).
Defined.

(** X8. A click on stop that finds no session is no click at all, and
    stopping twice is stopping once: wherever the page is not recording
    or holds no recorder, [stopRecording] leaves the world as it is; and
    after any [stopRecording] a second one changes nothing. *)
Theorem stopRecording_is_idempotent w :
  (isRecording (recorder w) = false \/ mediaRecorderRef (recorder w) = None ->
   exec stopRecording w = w)
  /\ exec stopRecording (exec stopRecording w) = exec stopRecording w.
Proof.
  assert (Hidle : forall w0,
            isRecording (recorder w0) = false \/ mediaRecorderRef (recorder w0) = None ->
            exec stopRecording w0 = w0).
  { intros w0 H. pose proof (stopRecording_effects w0) as Hs. cbv zeta in Hs.
    destruct H as [H|H]; rewrite H in Hs.
    - destruct (mediaRecorderRef (recorder w0)); exact Hs.
    - exact Hs. }
  split; [apply Hidle|].
  pose proof (stopRecording_effects w) as Hs. cbv zeta in Hs.
  destruct (mediaRecorderRef (recorder w)) as [r|] eqn:Hr.
  - destruct (isRecording (recorder w)) eqn:Hrec.
    + apply Hidle. left. destruct Hs as (_ & Hrc & _). rewrite Hrc. reflexivity.
    + rewrite Hs. apply Hidle. left. exact Hrec.
  - rewrite Hs. apply Hidle. right. exact Hr.
Qed.

Lemma stopRecording_is_idempotent_witness :
  isRecording (recorder initial_world) = false
  /\ exec stopRecording initial_world = initial_world.
Proof.
  split; [reflexivity|].
  apply (proj1 (stopRecording_is_idempotent initial_world)). left. reflexivity.
Defined.

(** ** The trace only grows *)

Lemma grows_ret {A} (a : A) : grows (ret a).
Proof. intros w. exists []. symmetry. apply app_nil_r. Qed.

Lemma grows_throw {A} e : grows (@throw A e).
Proof. intros w. exists []. symmetry. apply app_nil_r. Qed.

Lemma grows_get {A} (f : World -> A) : grows (get f).
Proof. intros w. exists []. symmetry. apply app_nil_r. Qed.

Lemma grows_modify f : (forall w, trace (f w) = trace w) -> grows (modify f).
Proof. intros H w. exists []. unfold exec, modify. cbn. rewrite H. symmetry. apply app_nil_r. Qed.

Lemma grows_emit e : grows (modify (emit e)).
Proof. intros w. exists [e]. reflexivity. Qed.

Lemma grows_bind {A B} (c : M A) (k : A -> M B) :
  grows c -> (forall a, grows (k a)) -> grows (bind c k).
Proof.
  intros Hc Hk w. unfold exec, bind. destruct (Hc w) as [e1 H1]. unfold exec in H1.
  destruct (c w) as [[a|e] w1]; cbn in *.
  - destruct (Hk a w1) as [e2 H2]. unfold exec in H2. exists (e1 ++ e2).
    rewrite H2, H1. symmetry. apply app_assoc.
  - exists e1. exact H1.
Qed.

Lemma grows_try_catch {A} (c : M A) (h : JsError -> M A) :
  grows c -> (forall e, grows (h e)) -> grows (try_catch c h).
Proof.
  intros Hc Hh w. unfold exec, try_catch. destruct (Hc w) as [e1 H1]. unfold exec in H1.
  destruct (c w) as [[a|e] w1]; cbn in *.
  - exists e1. exact H1.
  - destruct (Hh e w1) as [e2 H2]. unfold exec in H2. exists (e1 ++ e2).
    rewrite H2, H1. symmetry. apply app_assoc.
Qed.

Lemma grows_getUserMedia env : grows (navigator_mediaDevices_getUserMedia env).
Proof.
  intros w. unfold exec, navigator_mediaDevices_getUserMedia. cbn.
  destruct (getUserMedia env (length (trace w))); eexists; reflexivity.
Qed.

Lemma grows_transcriptions env req : grows (client_audio_transcriptions_create env req).
Proof. intros w. eexists. reflexivity. Qed.

Lemma grows_chat env req : grows (client_chat_completions_create env req).
Proof. intros w. eexists. reflexivity. Qed.

Lemma grows_Date_now env : grows (Date_now_read env).
Proof. intros w. exists []. symmetry. apply app_nil_r. Qed.

Lemma grows_new_AudioContext : grows new_AudioContext.
Proof. intros w. exists []. symmetry. apply app_nil_r. Qed.

Lemma grows_new_MediaRecorder s : grows (new_MediaRecorder s).
Proof. intros w. exists []. symmetry. apply app_nil_r. Qed.

Ltac grows_step :=
  first
    [ apply grows_ret | apply grows_throw | apply grows_get | apply grows_emit
    | apply grows_getUserMedia | apply grows_transcriptions | apply grows_chat
    | apply grows_Date_now | apply grows_new_AudioContext | apply grows_new_MediaRecorder
    | apply grows_modify; intros; reflexivity
    | apply grows_bind; [|intros]
    | apply grows_try_catch; [|intros]
    | match goal with
      | |- grows (if ?b then _ else _) => destruct b
      | |- grows (match ?x with _ => _ end) => destruct x
      end ].

Ltac grows_all := repeat grows_step.

(** Whatever happens to the page, the trace is extended, never
    rewritten. *)
Lemma handle_event_grows env rev ev : grows (handle_event env rev ev).
Proof.
  destruct ev; cbn [handle_event].
  - destruct rev; cbn [startRecording_of];
      unfold startRecording, startRecording_keycheck, acquire_and_record,
        microphone_failed, setError, setIsRecording, setIsPaused,
        onAnalyserReady, onRecordingStateChange, update_recorder, MediaRecorder_start,
        console; grows_all.
  - unfold stopRecording, MediaRecorder_stop, stop_all_tracks, AudioContext_close,
      update_recorder, onAnalyserReady, onRecordingStateChange, setIsRecording,
      setIsPaused; grows_all.
  - unfold togglePause, MediaRecorder_resume, MediaRecorder_pause, update_recorder,
      setIsPaused; grows_all.
  - unfold dismissError, setError; grows_all.
  - grows_all.
  - destruct rev;
      unfold ondataavailable, processChunk_of, processChunk, processChunk_keycheck,
        transcribeAudio, correctTranscript, translateText, first_content, onNewTranscript,
        handleNewTranscript, setTimeout_clear_caption, setProcessingStatus, setError,
        console; grows_all.
  - unfold caption_timer_fires; grows_all.
Qed.

Lemma events_of_grows {A} (c : M A) w :
  grows c -> trace (exec c w) = trace w ++ events_of c w.
Proof.
  intros H. destruct (H w) as [evs Hevs]. unfold events_of.
  rewrite Hevs, drop_app_length. reflexivity.
Qed.

(** ** What an event can and cannot do *)

Lemma handler_of_alter_state r st r' (m : gmap nat MediaRecorder) :
  (alter (mr_with_state st) r m !! r') ≫= mr_ondataavailable
  = (m !! r') ≫= mr_ondataavailable.
Proof.
  destruct (decide (r' = r)) as [->|Hne].
  - rewrite lookup_alter_eq. destruct (m !! r); reflexivity.
  - rewrite lookup_alter_ne by congruence. reflexivity.
Qed.

Lemma togglePause_keeps w :
  let w' := exec togglePause w in
  app w' = app w
  /\ trace w' = trace w
  /\ forall r', handler_of r' w' = handler_of r' w.
Proof.
  cbv zeta. unfold handler_of.
  destruct (mediaRecorderRef (recorder w)) as [r|] eqn:Hr.
  - pose proof (togglePause_effects w r Hr) as Ht. cbv zeta in Ht.
    destruct (recorder_state r w).
    + destruct Ht as [-> _]. auto.
    + destruct Ht as (_ & Ha & _ & _ & _ & _ & Hrs & Htr). rewrite Ha, Htr, Hrs.
      split; [reflexivity|]. split; [reflexivity|].
      intros r'. apply handler_of_alter_state.
    + destruct Ht as (_ & Ha & _ & _ & _ & _ & Hrs & Htr). rewrite Ha, Htr, Hrs.
      split; [reflexivity|]. split; [reflexivity|].
      intros r'. apply handler_of_alter_state.
  - unfold exec, togglePause. unfold_recorder. cbn. rewrite Hr. cbn. auto.
Qed.

Lemma stopRecording_keeps w :
  let w' := exec stopRecording w in
  transcripts (app w') = transcripts (app w)
  /\ trace w' = trace w
  /\ forall r', handler_of r' w' = handler_of r' w.
Proof.
  cbv zeta. unfold handler_of.
  pose proof (stopRecording_effects w) as Hs. cbv zeta in Hs.
  destruct (mediaRecorderRef (recorder w)) as [r|]; [|rewrite Hs; auto].
  destruct (isRecording (recorder w)); [|rewrite Hs; auto].
  destruct Hs as (Ha & _ & _ & Hrs & _ & _ & Htr). rewrite Ha, Htr, Hrs.
  split; [reflexivity|]. split; [reflexivity|].
  intros r'. apply handler_of_alter_state.
Qed.

Lemma events_of_same_trace {A} (c : M A) w :
  trace (exec c w) = trace w -> events_of c w = [].
Proof. intros H. unfold events_of. rewrite H. apply drop_all. Qed.

(** X9. The log is append-only: whatever happens to the page, the log
    afterwards is the log before, or the log before with one item added
    at its end; and an item is only ever added by a data event whose
    segment is not empty. No handler removes, reorders or rewrites an
    item. *)
Theorem log_is_append_only env rev ev w :
  let w' := exec (handle_event env rev ev) w in
  transcripts (app w') = transcripts (app w)
  \/ exists item r data,
       ev = DataAvailable r data
       /\ (0 < blob_size data)%N
       /\ transcripts (app w') = transcripts (app w) ++ [item].
Proof.
  cbv zeta. destruct ev; cbn [handle_event].
  - left. destruct (startRecording_of_effects env rev w) as [Hs|Hf]; cbv zeta in *.
    + destruct Hs as (tracks & _ & Ha & _). rewrite Ha. reflexivity.
    + destruct Hf as (Ha & _). rewrite Ha. reflexivity.
  - left. apply stopRecording_keeps.
  - left. destruct (togglePause_keeps w) as (Ha & _). cbv zeta in Ha. rewrite Ha. reflexivity.
  - left. reflexivity.
  - left. reflexivity.
  - unfold exec, bind, get. cbn -[ondataavailable].
    destruct (handler_of r w) as [d|]; [|left; reflexivity].
    destruct (0 <? blob_size data)%N eqn:Hsize.
    + destruct (ondataavailable_effects env rev d data w)
        as (_ & _ & _ & _ & _ & _ & _ & _ & _ & _ & _ & [Hsame|[item Hitem]]).
      * left. exact Hsame.
      * right. exists item, r, data. apply N.ltb_lt in Hsize. auto.
    + left. unfold ondataavailable. rewrite Hsize. reflexivity.
  - left. reflexivity.
Qed.

(** What an event does to the handlers and to the trace: a handler that
    exists afterwards existed before, unless the event was granted the
    microphone; and only a data event of a recorder that has a handler
    requests a transcription. *)
Lemma handle_event_summary env rev ev w :
  let w' := exec (handle_event env rev ev) w in
  let evs := events_of (handle_event env rev ev) w in
  (forall r d, handler_of r w' = Some d -> handler_of r w = Some d \/ granted evs)
  /\ ((exists req ans, In (TranscriptionsCreate req ans) evs) ->
      exists r data d, ev = DataAvailable r data /\ handler_of r w = Some d).
Proof.
  cbv zeta. destruct ev; cbn [handle_event].
  - destruct (startRecording_of_effects env rev w) as [Hs|Hf]; cbv zeta in *.
    + destruct Hs as (tracks & Htr & _ & _ & _ & _ & _ & Hrr & Hro).
      assert (Hev : events_of (startRecording_of env rev) w = [GetUserMedia (Returns tracks)])
        by (unfold events_of; rewrite Htr; apply drop_app_length).
      rewrite Hev. split.
      * intros r d Hd.
        destruct (decide (r = S (S (next_handle (host w))))) as [->|Hne].
        -- right. exists tracks. left. reflexivity.
        -- left. unfold handler_of in *. rewrite (Hro _ Hne) in Hd. exact Hd.
      * intros (req & ans & [H|[]]). discriminate H.
    + destruct Hf as (_ & Hh & _ & Hno & _). split.
      * intros r d Hd. left. unfold handler_of in *. rewrite Hh in Hd. exact Hd.
      * intros (req & ans & H). destruct (Hno _ _ H).
  - destruct (stopRecording_keeps w) as (_ & Htr & Hh). cbv zeta in *.
    rewrite (events_of_same_trace _ _ Htr). split.
    + intros r d Hd. left. rewrite Hh in Hd. exact Hd.
    + intros (req & ans & []).
  - destruct (togglePause_keeps w) as (_ & Htr & Hh). cbv zeta in *.
    rewrite (events_of_same_trace _ _ Htr). split.
    + intros r d Hd. left. rewrite Hh in Hd. exact Hd.
    + intros (req & ans & []).
  - split; [intros r d Hd; left; exact Hd|].
    rewrite events_of_same_trace by reflexivity. intros (req & ans & []).
  - split; [intros r d Hd; left; exact Hd|].
    rewrite events_of_same_trace by reflexivity. intros (req & ans & []).
  - assert (Hrun : forall d, handler_of r w = Some d ->
              (d0 <- get (handler_of r) ;;
               match d0 with
               | Some d1 => ondataavailable env rev d1 data
               | None => ret tt
               end)%js w = ondataavailable env rev d data w).
    { intros d Hd. unfold bind, get. rewrite Hd. reflexivity. }
    destruct (handler_of r w) as [d|] eqn:Hd.
    + unfold events_of, exec. rewrite (Hrun d eq_refl). split.
      * intros r' d' Hd'. left.
        destruct (ondataavailable_effects env rev d data w) as (Hh & _).
        unfold exec in Hh. unfold handler_of in *. rewrite Hh in Hd'. exact Hd'.
      * intros _. exists r, data, d. auto.
    + assert (Hnone : (d0 <- get (handler_of r) ;;
                       match d0 with
                       | Some d1 => ondataavailable env rev d1 data
                       | None => ret tt
                       end)%js w = (Returns tt, w))
        by (unfold bind, get; rewrite Hd; reflexivity).
      unfold events_of, exec. rewrite Hnone. cbn. rewrite drop_all. split.
      * intros r' d' Hd'. left. exact Hd'.
      * intros (req & ans & []).
  - split; [intros r d Hd; left; exact Hd|].
    rewrite events_of_same_trace by reflexivity. intros (req & ans & []).
Qed.

Lemma classic_transcribes evs :
  (exists req ans, In (TranscriptionsCreate req ans) evs)
  \/ (forall req ans, ~ In (TranscriptionsCreate req ans) evs).
Proof.
  induction evs as [|e evs [(req & ans & H)|Hno]].
  - right. intros req ans [].
  - left. exists req, ans. right. exact H.
  - destruct e as [a0 | req0 ans0 | req0 ans0 | lvl txt].
    + right. intros req ans [H|H]; [discriminate H | exact (Hno _ _ H)].
    + left. exists req0, ans0. left. reflexivity.
    + right. intros req ans [H|H]; [discriminate H | exact (Hno _ _ H)].
    + right. intros req ans [H|H]; [discriminate H | exact (Hno _ _ H)].
Qed.

(** A chunk's pipeline asks for no microphone. *)
Lemma ondataavailable_never_asks env rev d data w tracks :
  ~ In (GetUserMedia (Returns tracks)) (events_of (ondataavailable env rev d data) w).
Proof.
  unfold events_of, exec, ondataavailable.
  destruct (0 <? blob_size data)%N; [|cbn; rewrite drop_all; intros []].
  unfold bind at 1, modify. cbn -[processChunk_of].
  set (w0 := with_recorder (rec_chunksRef (fun cs => cs ++ [data])) w).
  change (trace w) with (trace w0).
  change (drop (length (trace w0)) (trace (processChunk_of env rev (captured_language d) data w0).2))
    with (events_of (processChunk_of env rev (captured_language d) data) w0).
  generalize w0. clear w w0. intros w.
  unfold events_of, exec.
  destruct rev; cbn [processChunk_of].
  - unfold processChunk, bind, try_catch.
    rewrite transcribeAudio_run. name_stage1 ans1. destruct ans1 as [v|e].
    + destruct (no_transcript v) eqn:Hv.
      * cbn. rewrite drop_app_length. intros [H|[]]; discriminate H.
      * rewrite correctTranscript_run. name_chat ans2.
        rewrite translateText_run. name_chat ans3.
        unfold onNewTranscript. rewrite handleNewTranscript_run. cbn.
        rewrite <- !app_assoc, drop_app_length. clearbody ans2 ans3.
        destruct ans2 as [[[|? ?]]|?], ans3 as [[[|? ?]]|?]; cbn;
          intuition discriminate.
    + unfold_m. cbn. rewrite <- !app_assoc, drop_app_length. cbn. intuition discriminate.
  - unfold processChunk_keycheck, bind, try_catch, setProcessingStatus, setError.
    unfold_m. cbn -[transcribeAudio correctTranscript translateText onNewTranscript].
    rewrite transcribeAudio_run. name_stage1 ans1. destruct ans1 as [v|e].
    + cbn -[correctTranscript translateText onNewTranscript].
      destruct (no_transcript v) eqn:Hv.
      * cbn. rewrite <- !app_assoc, drop_app_length. cbn. intuition discriminate.
      * cbn -[correctTranscript translateText onNewTranscript].
        rewrite correctTranscript_run. name_chat ans2.
        cbn -[translateText onNewTranscript].
        rewrite translateText_run. name_chat ans3.
        unfold onNewTranscript. rewrite handleNewTranscript_run. cbn.
        rewrite <- !app_assoc, drop_app_length. clearbody ans2 ans3.
        destruct ans2 as [[[|? ?]]|?], ans3 as [[[|? ?]]|?]; cbn;
          intuition discriminate.
    + cbn.
      destruct (message_includes e (lit "API") || message_includes e (lit "401")
                || message_includes e (lit "403"));
        cbn; rewrite <- !app_assoc, drop_app_length; cbn; intuition discriminate.
Qed.

Lemma granted_app l evs : granted l -> granted (l ++ evs).
Proof. intros [tracks H]. exists tracks. apply in_or_app. left. exact H. Qed.

Lemma transcribes_after_grant_app l evs :
  transcribes_after_grant l ->
  (granted l \/ granted evs \/ forall req ans, ~ In (TranscriptionsCreate req ans) evs) ->
  (granted evs -> transcribes_after_grant evs) ->
  transcribes_after_grant (l ++ evs).
Proof.
  intros Hl Hor Hevs pre req ans post Heq.
  apply List.app_eq_app in Heq as [mid [[Hl' Hpost]|[Hpre Hevs']]].
  - destruct mid as [|m mid'].
    + (* the request is the first event of [evs] *)
      cbn in Hpost. rewrite app_nil_r in Hl'. subst l evs.
      destruct Hor as [Hg|[Hg|Hno]].
      * exact Hg.
      * destruct (Hevs Hg [] req ans post eq_refl) as [tracks []].
      * exfalso. apply (Hno req ans). left. reflexivity.
    + (* the request lies in [l] *)
      cbn in Hpost. injection Hpost as <- Hpost. subst l.
      apply (Hl pre req ans mid'). reflexivity.
  - (* the request lies in [evs], after [mid] *)
    subst pre. destruct Hor as [Hg|[Hg|Hno]].
    + apply granted_app. exact Hg.
    + destruct (Hevs Hg mid req ans post Hevs') as [tracks Hin].
      exists tracks. apply in_or_app. right. exact Hin.
    + exfalso. apply (Hno req ans). rewrite Hevs'. apply in_or_app. right. left. reflexivity.
Qed.

(** X10. No chunk before a grant: in every world the page reaches, a
    recorder has a data handler only if the microphone was granted
    earlier in the trace, and every transcription request of the trace
    comes after a grant of the microphone. *)
Theorem transcription_only_after_grant env rev w :
  Reachable env rev w ->
  (forall r d, handler_of r w = Some d -> granted (trace w))
  /\ transcribes_after_grant (trace w).
Proof.
  induction 1 as [|w ev Hreach [IHh IHt] Hen].
  - assert (Hh : host (exec (mount_effect env rev) initial_world) = host initial_world)
      by (destruct rev; cbn; [|destruct (isApiKeyConfigured env)]; reflexivity).
    split.
    + intros r d Hd. unfold handler_of in Hd. rewrite Hh in Hd. cbn in Hd.
      rewrite lookup_empty in Hd. discriminate.
    + intros pre req ans post Heq. exfalso.
      assert (Hin : In (TranscriptionsCreate req ans)
                      (trace (exec (mount_effect env rev) initial_world)))
        by (rewrite Heq; apply in_or_app; right; left; reflexivity).
      destruct rev; cbn in Hin; [exact Hin|].
      destruct (isApiKeyConfigured env); cbn in Hin; [exact Hin|].
      destruct Hin as [Hin|[]]. discriminate Hin.
  - destruct (handle_event_summary env rev ev w) as [Hhand Htrans]. cbv zeta in *.
    rewrite (events_of_grows _ w (handle_event_grows env rev ev)).
    split.
    + intros r d Hd. destruct (Hhand r d Hd) as [Hold|Hg].
      * apply granted_app. exact (IHh r d Hold).
      * destruct Hg as [tracks Hin]. exists tracks. apply in_or_app. right. exact Hin.
    + apply transcribes_after_grant_app; [exact IHt| |].
      * destruct (classic_transcribes (events_of (handle_event env rev ev) w))
          as [Hsome|Hnone].
        -- left. destruct (Htrans Hsome) as (r & data & d & _ & Hd). exact (IHh r d Hd).
        -- right. right. exact Hnone.
      * intros Hg pre req ans post Heq. exfalso.
        assert (Hsome : exists req ans,
                  In (TranscriptionsCreate req ans) (events_of (handle_event env rev ev) w))
          by (exists req, ans; rewrite Heq; apply in_or_app; right; left; reflexivity).
        destruct (Htrans Hsome) as (r & data & d & -> & Hd).
        destruct Hg as [tracks Hin].
        cbn [handle_event] in Hin.
        assert (Hrun : events_of (d0 <- get (handler_of r) ;;
                                  match d0 with
                                  | Some d1 => ondataavailable env rev d1 data
                                  | None => ret tt
                                  end)%js w
                       = events_of (ondataavailable env rev d data) w)
          by (unfold events_of, exec, bind, get; rewrite Hd; reflexivity).
        rewrite Hrun in Hin. clear - Hin.
        apply (ondataavailable_never_asks env rev d data w tracks Hin).
Qed.

Lemma transcription_only_after_grant_witness :
  let w := Scenario.run Plain in
  Reachable Scenario.env Plain w
  /\ (exists req ans, In (TranscriptionsCreate req ans) (trace w))
  /\ (forall r d, handler_of r w = Some d -> granted (trace w))
  /\ transcribes_after_grant (trace w).
Proof.
  cbv zeta.
  assert (H1 : Reachable Scenario.env Plain (Scenario.run Plain)).
  { unfold Scenario.run.
    apply reach_event; [|reflexivity].
    apply reach_event; [apply reach_mount | reflexivity]. }
  split; [exact H1|]. split.
  - eexists _, _. vm_compute. right. left. reflexivity.
  - exact (transcription_only_after_grant Scenario.env Plain _ H1).
Defined.

(** ** Without a credential *)

(** X11. With the credential missing, the revision with the key check
    never lets anything leave the page: in every world it reaches the
    page is not recording, the host holds no stream, no audio context and
    no recorder, the trace holds console lines only (no request for the
    microphone, no transcription, no chat completion), and the log is
    empty. *)
Theorem missing_key_disables_everything env w :
  isApiKeyConfigured env = false ->
  Reachable env KeyCheck w ->
  isRecording (recorder w) = false
  /\ streams (host w) = ∅
  /\ contexts (host w) = ∅
  /\ recorders (host w) = ∅
  /\ Forall is_console (trace w)
  /\ transcripts (app w) = [].
Proof.
  intros Hkey Hreach.
  induction Hreach as [|w ev Hreach IH Hen].
  - unfold mount_effect. rewrite Hkey. cbn.
    repeat split; try reflexivity. repeat constructor.
  - pose proof (reachable_invariant env KeyCheck w Hreach) as [_ Hmissing].
    rewrite Hkey in Hmissing. cbn in Hmissing.
    destruct IH as (Hoff & Hst & Hct & Hrs & Htr & Hlog).
    destruct ev; cbn [handle_event enabled] in *.
    + unfold exec. cbn [startRecording_of].
      unfold startRecording_keycheck, setError, bind, modify, get.
      cbn -[acquire_and_record microphone_failed try_catch]. rewrite Hmissing.
      cbn. auto 10.
    + unfold shows_stop_button in Hen. congruence.
    + unfold shows_stop_button in Hen. congruence.
    + cbn. auto 10.
    + cbn. auto 10.
    + apply bool_decide_eq_true in Hen. destruct Hen as [d Hd].
      unfold handler_of in Hd. rewrite Hrs, lookup_empty in Hd. discriminate.
    + cbn. auto 10.
Qed.

Lemma missing_key_disables_everything_witness :
  let w := exec (handle_event Runs.no_key KeyCheck ClickStart)
             (exec (mount_effect Runs.no_key KeyCheck) initial_world) in
  isApiKeyConfigured Runs.no_key = false
  /\ Reachable Runs.no_key KeyCheck w
  /\ isRecording (recorder w) = false
  /\ streams (host w) = ∅
  /\ contexts (host w) = ∅
  /\ recorders (host w) = ∅
  /\ Forall is_console (trace w)
  /\ transcripts (app w) = [].
Proof.
  cbv zeta.
  assert (H1 : isApiKeyConfigured Runs.no_key = false) by reflexivity.
  assert (H2 : Reachable Runs.no_key KeyCheck
                 (exec (handle_event Runs.no_key KeyCheck ClickStart)
                    (exec (mount_effect Runs.no_key KeyCheck) initial_world)))
    by (apply reach_event; [apply reach_mount | reflexivity]).
  split; [exact H1|]. split; [exact H2|].
  exact (missing_key_disables_everything Runs.no_key _ H1 H2).
Defined.

(** ** The floating caption *)

(** X12. The timer of a caption clears it only if it is still the
    caption: after two transcripts, when the timer of the first fires the
    caption of the second stays, unless the two translations are the same
    text, in which case the first timer clears the caption the second
    has just set; the timer of the latest transcript always clears its
    caption. No timer touches the log. *)
Theorem caption_timer_clears_only_its_own env original1 translation1 original2 translation2 w :
  let w1 := exec (handleNewTranscript env original1 translation1) w in
  let w2 := exec (handleNewTranscript env original2 translation2) w1 in
  latestCaption (app w2) = translation2
  /\ enabled (CaptionTimer translation1) w2 = true
  /\ enabled (CaptionTimer translation2) w2 = true
  /\ latestCaption (app (exec (caption_timer_fires translation1) w2))
     = (if bool_decide (translation1 = translation2) then lit "" else translation2)
  /\ latestCaption (app (exec (caption_timer_fires translation2) w2)) = lit ""
  /\ transcripts (app (exec (caption_timer_fires translation1) w2)) = transcripts (app w2).
Proof.
  cbv zeta. unfold exec. rewrite !handleNewTranscript_run. cbn.
  split; [reflexivity|].
  split; [apply bool_decide_eq_true; rewrite !list_elem_of_In, !in_app_iff; cbn; auto|].
  split; [apply bool_decide_eq_true; rewrite !list_elem_of_In, !in_app_iff; cbn; auto|].
  split.
  - destruct (decide (translation1 = translation2)) as [->|Hne].
    + rewrite !bool_decide_eq_true_2 by reflexivity. reflexivity.
    + rewrite (bool_decide_eq_false_2 (translation2 = translation1)) by congruence.
      rewrite (bool_decide_eq_false_2 (translation1 = translation2)) by congruence.
      reflexivity.
  - split; [|reflexivity]. rewrite bool_decide_eq_true_2 by reflexivity. reflexivity.
Qed.

(** ** services/openai.ts on its own *)

(** X13. [transcribeAudio] makes exactly one remote call, with the file
    and the language it was given, and hands on what the call answered:
    the value it returned, or the very error it raised, after one line on
    the console; it changes nothing else. *)
Theorem transcribeAudio_hands_on_the_answer env audioFile language w :
  let c := transcribeAudio env audioFile language in
  exists ans,
    transcription_calls (events_of c w)
    = [ (transcription_request audioFile language, ans) ]
    /\ result c w = ans
    /\ (forall e, ans = Raises e ->
        events_of c w
        = [ TranscriptionsCreate (transcription_request audioFile language) ans;
            Console Error (lit "Transcription error:") ])
    /\ (forall v, ans = Returns v ->
        events_of c w
        = [ TranscriptionsCreate (transcription_request audioFile language) ans ])
    /\ app (exec c w) = app w
    /\ recorder (exec c w) = recorder w
    /\ host (exec c w) = host w.
Proof.
  cbv zeta. unfold events_of, exec, result. rewrite transcribeAudio_run. cbn.
  rewrite drop_app_length. eexists. split; [|split; [reflexivity|]].
  - destruct (transcriptions_create env _ _); reflexivity.
  - repeat split; try reflexivity.
    + intros e ->. reflexivity.
    + intros v ->. reflexivity.
Qed.

(** X14. [correctTranscript] and [translateText] never raise, whatever
    the remote call does, and each makes exactly one chat call.
    [correctTranscript] returns the content of the first choice when
    there is one that is not empty, and its own argument otherwise, so
    its result is empty only if its argument is. [translateText] returns
    the empty string exactly when the call raised or came back without
    content; when no target is passed, or the target is en, its
    instruction asks for English. *)
Theorem completions_never_raise env text targetLang w :
  let c2 := correctTranscript env text in
  let c3 := translateText env text targetLang in
  (exists ans,
     chat_calls (events_of c2 w) = [ (correction_request text, ans) ]
     /\ result c2 w = Returns (content_or ans text)
     /\ (no_content ans = true -> content_or ans text = text)
     /\ (text <> [] -> content_or ans text <> []))
  /\ (exists ans,
        chat_calls (events_of c3 w)
        = [ (translation_request text (default (lit "en") targetLang), ans) ]
        /\ result c3 w = Returns (content_or ans (lit ""))
        /\ (content_or ans (lit "") = lit "" <-> no_content ans = true))
  /\ (targetLang = None \/ targetLang = Some (lit "en") ->
      translator_instruction (default (lit "en") targetLang) = english_instruction).
Proof.
  cbv zeta. unfold events_of, exec, result.
  rewrite correctTranscript_run, translateText_run. cbn.
  rewrite !drop_app_length. split; [|split].
  - eexists. split; [|split; [reflexivity|split]].
    + destruct (chat_completions_create env _ (correction_request text))
        as [[[|? ?]]|?]; reflexivity.
    + apply content_or_no_content.
    + apply content_or_nonempty.
  - eexists. split; [|split; [reflexivity|]].
    + destruct (chat_completions_create env _ (translation_request text _))
        as [[[|? ?]]|?]; reflexivity.
    + destruct (chat_completions_create env _ (translation_request text _))
        as [ [ [ | [ [ s | ] ] chs ] ] | e ]; cbn; try tauto.
      destruct (bool_decide (s = [])) eqn:E; cbn; [tauto|].
      apply bool_decide_eq_false in E. split; [intros; contradiction | discriminate].
  - intros [-> | ->]; vm_compute; reflexivity.
Qed.

Lemma transcribeAudio_hands_on_the_answer_witness :
  let c := transcribeAudio Runs.stage1_down (speech_file Scenario.chunk) Runs.korean in
  result c initial_world = Raises Scenario.outage
  /\ events_of c initial_world
     = [ TranscriptionsCreate Runs.request (Raises Scenario.outage);
         Console Error (lit "Transcription error:") ].
Proof.
  cbv zeta.
  destruct (transcribeAudio_hands_on_the_answer Runs.stage1_down
              (speech_file Scenario.chunk) Runs.korean initial_world)
    as (ans & Hcalls & Hres & Hraise & _).
  assert (Hans : ans = Raises Scenario.outage) by (rewrite <- Hres; reflexivity).
  split; [rewrite Hres; exact Hans|].
  rewrite (Hraise _ Hans), Hans. reflexivity.
Defined.

Lemma completions_never_raise_witness :
  let c2 := correctTranscript Runs.stage2_down (lit "hello world") in
  result c2 initial_world = Returns (lit "hello world")
  /\ translator_instruction (default (lit "en") None) = english_instruction.
Proof.
  cbv zeta.
  destruct (completions_never_raise Runs.stage2_down (lit "hello world") None initial_world)
    as ((ans & Hcalls & Hres & Hfail & _) & _ & Heng).
  split; [|apply Heng; left; reflexivity].
  rewrite Hres. f_equal. apply Hfail.
  assert (Hans : (correction_request (lit "hello world"), ans)
                 = (correction_request (lit "hello world"), Raises Scenario.outage))
    by (assert (Hl : [ (correction_request (lit "hello world"), ans) ]
                     = [ (correction_request (lit "hello world"), Raises Scenario.outage) ])
          by (rewrite <- Hcalls; vm_compute; reflexivity);
        injection Hl as ->; reflexivity).
  injection Hans as ->. reflexivity.
Defined.

(** ** Starting *)



(** ** Saving the log *)

Lemma startsWith_app p b : startsWith (p ++ b) p = true.
Proof.
  induction p as [|c p IH]; cbn; [destruct b; reflexivity|].
  rewrite N.eqb_refl. exact IH.
Qed.

Lemma includes_here s p : startsWith s p = true -> includes s p = true.
Proof. intros H. destruct s; cbn in *; rewrite H; reflexivity. Qed.

Lemma includes_app_r a s p : includes s p = true -> includes (a ++ s) p = true.
Proof.
  intros H. induction a as [|c a IH]; cbn; [exact H|].
  rewrite IH. apply orb_true_r.
Qed.

Lemma includes_middle a p b : includes (a ++ p ++ b) p = true.
Proof. apply includes_app_r, includes_here, startsWith_app. Qed.

Lemma startsWith_app_l s b p : startsWith s p = true -> startsWith (s ++ b) p = true.
Proof.
  revert s. induction p as [|x p IH]; intros s H.
  - destruct (s ++ b); reflexivity.
  - destruct s as [|y s]; [discriminate H|].
    change (startsWith (y :: s) (x :: p)) with ((x =? y)%N && startsWith s p) in H.
    change (startsWith ((y :: s) ++ b) (x :: p))
      with ((x =? y)%N && startsWith (s ++ b) p).
    apply andb_true_iff in H as [-> H]. exact (IH s H).
Qed.

Lemma includes_app_l s b p : includes s p = true -> includes (s ++ b) p = true.
Proof.
  induction s as [|c s IH]; intros H.
  - apply includes_here, startsWith_app_l. destruct p; [reflexivity | discriminate H].
  - change (includes (c :: s) p) with (startsWith (c :: s) p || includes s p) in H.
    change (includes ((c :: s) ++ b) p)
      with (startsWith ((c :: s) ++ b) p || includes (s ++ b) p).
    apply orb_true_iff in H as [H|H].
    + rewrite (startsWith_app_l _ b _ H). reflexivity.
    + rewrite (IH H). apply orb_true_r.
Qed.

Lemma join_snoc sep parts p :
  parts <> [] -> join sep (parts ++ [p]) = join sep parts ++ sep ++ p.
Proof.
  induction parts as [|q parts IH]; [congruence|]. intros _.
  destruct parts as [|q' parts].
  - reflexivity.
  - change (join sep ((q :: q' :: parts) ++ [p]))
      with (q ++ sep ++ join sep ((q' :: parts) ++ [p])).
    rewrite IH by discriminate.
    change (join sep (q :: q' :: parts)) with (q ++ sep ++ join sep (q' :: parts)).
    rewrite <- !app_assoc. reflexivity.
Qed.

Lemma format_item_parts t :
  includes (format_item t) (original t) = true
  /\ includes (format_item t) (translation t) = true
  /\ includes (format_item t) (timestamp t) = true
  /\ format_item t <> [].
Proof.
  unfold format_item. repeat split.
  - rewrite (app_assoc (lit "[")), (app_assoc _ (lit "] Original: ")).
    apply includes_middle.
  - rewrite !app_assoc. rewrite <- (app_assoc _ (translation t) LF).
    apply includes_middle.
  - apply includes_middle.
  - discriminate.
Qed.

(** X16. What the save button writes: the text of the file after one
    more transcript is the text before, the separator, and the lines of
    the new item (the lines alone for the first item), so an earlier
    save is a prefix of every later one; the original, the translation
    and the time of every item of the log occur in the text; and the
    text is empty exactly when the log is, which is when the button is
    disabled. *)
Theorem saved_text_follows_the_log transcripts :
  (forall t,
     download_content (transcripts ++ [t])
     = if save_disabled transcripts then format_item t
       else download_content transcripts ++ separator ++ format_item t)
  /\ (forall t, In t transcripts ->
        includes (download_content transcripts) (original t) = true
        /\ includes (download_content transcripts) (translation t) = true
        /\ includes (download_content transcripts) (timestamp t) = true)
  /\ (download_content transcripts = [] <-> transcripts = [])
  /\ (save_disabled transcripts = true <-> transcripts = []).
Proof.
  split; [|split; [|split]].
  - intros t. unfold download_content, save_disabled.
    destruct transcripts as [|t0 ts]; [reflexivity|]. cbn [length Nat.eqb].
    rewrite List.map_app. apply join_snoc. discriminate.
  - induction transcripts as [|t0 ts IH]; intros t Hin; [destruct Hin|].
    unfold download_content in *. cbn [List.map join].
    destruct (format_item_parts t0) as (Ho & Htl & Hts & _).
    destruct ts as [|t1 ts].
    + destruct Hin as [<-|[]]. auto.
    + destruct Hin as [<-|Hin].
      * cbn [List.map]. repeat split; apply includes_app_l; assumption.
      * destruct (IH t Hin) as (H1 & H2 & H3).
        repeat split; rewrite app_assoc; apply includes_app_r; assumption.
  - unfold download_content. split; [|intros ->; reflexivity].
    destruct transcripts as [|t0 ts]; [reflexivity|]. cbn [List.map join].
    destruct (List.map format_item ts); unfold format_item; discriminate.
  - unfold save_disabled. destruct transcripts; cbn; split; congruence.
Qed.

Lemma saved_text_follows_the_log_witness :
  let log := transcripts (app (Scenario.run Plain)) in
  exists t,
    In t log
    /\ original t = lit "Hello world."
    /\ includes (download_content log) (lit "Hello world.") = true
    /\ includes (download_content log) (lit "Bonjour le monde.") = true.
Proof.
  cbv zeta.
  assert (Hlog : exists t, transcripts (app (Scenario.run Plain)) = [t]
                           /\ original t = lit "Hello world."
                           /\ translation t = lit "Bonjour le monde.")
    by (eexists; vm_compute; repeat split).
  destruct Hlog as (t & Hlog & Ho & Htl). exists t.
  assert (Hin : In t (transcripts (app (Scenario.run Plain))))
    by (rewrite Hlog; left; reflexivity).
  destruct (proj1 (proj2 (saved_text_follows_the_log _)) t Hin) as (H1 & H2 & _).
  rewrite Ho in H1. rewrite Htl in H2. auto.
Defined.

(** ** The language selector *)

(** X17. The selector shows what was chosen: a click on any option of
    the list sets the page's language to the code of that option, closes
    the dropdown, and the selector then shows that very option; the codes
    of the list are pairwise distinct; a language code that is not in the
    list is shown as the first option, Korean; and the language the page
    starts with is in the list. *)
Theorem selector_shows_the_choice :
  (forall lang a isOpen,
     In lang LanguageSelector.languages ->
     let (a', isOpen') := LanguageSelector.choose lang a isOpen in
     language a' = LanguageSelector.code lang
     /\ isOpen' = false
     /\ LanguageSelector.selectedLang (language a') = lang
     /\ transcripts a' = transcripts a)
  /\ NoDup (List.map LanguageSelector.code LanguageSelector.languages)
  /\ (forall l,
        ~ In l (List.map LanguageSelector.code LanguageSelector.languages) ->
        LanguageSelector.name (LanguageSelector.selectedLang l) = lit "Korean")
  /\ In (language (app initial_world))
        (List.map LanguageSelector.code LanguageSelector.languages).
Proof.
  split; [|split; [|split]].
  - intros lang a isOpen Hin. cbn.
    repeat split.
    cbn in Hin. repeat destruct Hin as [<-|Hin]; try reflexivity. destruct Hin.
  - apply NoDup_ListNoDup. repeat constructor; cbn; intuition discriminate.
  - intros l Hnot. unfold LanguageSelector.selectedLang.
    destruct (List.find _ LanguageSelector.languages) as [x|] eqn:E; [|reflexivity].
    exfalso. apply List.find_some in E as [Hin Hc]. apply bool_decide_eq_true in Hc.
    apply Hnot. rewrite <- Hc. apply List.in_map. exact Hin.
  - cbn. left. reflexivity.
Qed.

Lemma selector_shows_the_choice_witness :
  let french := {| LanguageSelector.code := lit "fr"; LanguageSelector.name := lit "French" |} in
  In french LanguageSelector.languages
  /\ LanguageSelector.selectedLang
       (language (fst (LanguageSelector.choose french (app initial_world) true)))
     = french.
Proof.
  cbv zeta.
  assert (H : In {| LanguageSelector.code := lit "fr"; LanguageSelector.name := lit "French" |}
                LanguageSelector.languages) by (cbn; auto 10).
  split; [exact H|].
  pose proof (proj1 selector_shows_the_choice _ (app initial_world) true H) as Hc.
  cbn in Hc. destruct Hc as (_ & _ & Hc & _). exact Hc.
Defined.

(** ** The frames of the visualizer *)

Module VisualizerFrames.

Import Visualizer VisualizerBounds.
Local Open Scope float_scope.

Lemma freqValue_is_a_byte dataArray bufferLength dot :
  Forall (fun v => 0 <= v <= 255)%Z dataArray ->
  (0 <= freqValue dataArray bufferLength dot <= 255)%Z.
Proof.
  intros Hbytes. unfold freqValue, element_or_0.
  destruct (binIndex bufferLength dot) as [i|]; [|lia].
  destruct (i <? 0)%Z; [lia|].
  destruct (dataArray !! Z.to_nat i) as [v|] eqn:E; cbn; [|lia].
  rewrite List.Forall_forall in Hbytes. apply Hbytes.
  apply list_elem_of_In. eapply list_elem_of_lookup_2. exact E.
Qed.

Lemma every_byte_in_range v : (0 <= v <= 255)%Z -> in_range v = true.
Proof.
  intros Hv.
  assert (Hall : forallb in_range (List.map Z.of_nat (seq 0 256)) = true)
    by (vm_compute; reflexivity).
  rewrite forallb_forall in Hall. apply Hall.
  apply List.in_map_iff. exists (Z.to_nat v). split; [lia|].
  apply in_seq. lia.
Qed.

(** X18. With bytes in the frequency data (0 to 255), whatever the
    dot and whatever the number of bins, the energy a dot reads is a byte,
    its contribution to the radius lies between 0 and 40, and the disc
    drawn for it has a size between 2 and 5: the pulse never leaves these
    bounds, in the binary64 arithmetic of the page. *)
Theorem pulse_stays_in_bounds cos sin dataArray bufferLength dot :
  Forall (fun v => 0 <= v <= 255)%Z dataArray ->
  let v := freqValue dataArray bufferLength dot in
  let arc := snd (draw_dot cos sin dataArray bufferLength dot) in
  (0 <= v <= 255)%Z
  /\ currentRadius dataArray bufferLength dot
     = baseR dot * scale dataArray bufferLength + contribution v
  /\ (0 <=? contribution v) = true
  /\ (contribution v <=? 40) = true
  /\ (2 <=? arc_radius arc) = true
  /\ (arc_radius arc <=? 5) = true.
Proof.
  intros Hbytes. cbv zeta.
  pose proof (freqValue_is_a_byte dataArray bufferLength dot Hbytes) as Hv.
  pose proof (every_byte_in_range _ Hv) as Hr.
  unfold in_range in Hr.
  apply andb_true_iff in Hr as [Hr H4]. apply andb_true_iff in Hr as [Hr H3].
  apply andb_true_iff in Hr as [H1 H2].
  split; [exact Hv|]. split; [reflexivity|]. split; [exact H1|]. split; [exact H2|].
  split; [exact H3 | exact H4].
Qed.

Lemma pulse_stays_in_bounds_witness :
  let dot := slow_dot (fun _ => 0) (fun _ => 0) in
  Forall (fun v => 0 <= v <= 255)%Z loud
  /\ (0 <=? contribution (freqValue loud 128 dot)) = true
  /\ (contribution (freqValue loud 128 dot) <=? 40) = true.
Proof.
  cbv zeta.
  assert (H : Forall (fun v => 0 <= v <= 255)%Z loud).
  { apply List.Forall_forall. intros v Hin. apply repeat_spec in Hin. lia. }
  split; [exact H|].
  destruct (pulse_stays_in_bounds (fun _ => 0) (fun _ => 0) loud 128
              (slow_dot (fun _ => 0) (fun _ => 0)) H) as (_ & _ & H1 & H2 & _).
  split; assumption.
Defined.



End VisualizerFrames.
